(** * conventional-gitmoji: configuration resolver and template engine

    A shallow embedding of [source/configuration.ts] (the schema pipeline
    [ConfigurationSchema], the class [Configuration] with its loaders and
    lookups), of the part of [source/emoji.ts] it uses, and of the template
    engine exercised by [test/template.test.ts].

    Strings are byte strings holding UTF-8.  Parsed JSON documents are
    values of [json]; a JavaScript object is the list of its own enumerable
    properties in enumeration order.  The sources import the schema
    library zod (3.22.4) and [deepMerge] of Deno's standard library
    (0.208.0); the operations of both that the code calls are embedded
    as functions, [Zod] and [DeepMerge]. *)

From Stdlib Require Import List String Ascii Bool ZArith NArith Lia Permutation.
From Stdlib Require Import DecimalString.
Import ListNotations.
Open Scope string_scope.
Open Scope list_scope.

(* ================================================================== *)
(** * JavaScript objects *)

Module JS.

(** Own enumerable string-keyed properties, in the order [Object.keys] and
    [for ... in] visit them: array-index keys first, ascending, then the
    other keys in creation order. *)
Definition object (V : Type) := list (string * V).

Definition keys {V} (o : object V) : list string := map fst o.

Definition values {V} (o : object V) : list V := map snd o.

Fixpoint getOwn {V} (k : string) (o : object V) : option V :=
  match o with
  | [] => None
  | (k', v) :: rest => if String.eqb k' k then Some v else getOwn k rest
  end.

(** [Object.hasOwn(o, k)] *)
Definition hasOwn {V} (k : string) (o : object V) : bool :=
  match getOwn k o with Some _ => true | None => false end.

Definition digitValue (c : ascii) : option N :=
  let n := N_of_ascii c in
  if ((48 <=? n) && (n <=? 57))%N then Some (n - 48)%N else None.

Fixpoint digits (s : string) (acc : N) : option N :=
  match s with
  | EmptyString => Some acc
  | String c rest =>
      match digitValue c with
      | Some d => digits rest (10 * acc + d)%N
      | None => None
      end
  end.

(** A property key is an array index when it is the canonical decimal
    form of an integer below [2^32 - 1]. *)
Definition arrayIndex (k : string) : option N :=
  match k with
  | EmptyString => None
  | String "0"%char EmptyString => Some 0%N
  | String "0"%char _ => None
  | _ =>
      match digits k 0 with
      | Some n => if (n <? 4294967295)%N then Some n else None
      | None => None
      end
  end.

Fixpoint update {V} (k : string) (v : V) (o : object V) : object V :=
  match o with
  | [] => []
  | (k', v') :: rest =>
      if String.eqb k' k then (k', v) :: rest else (k', v') :: update k v rest
  end.

Fixpoint insertIndex {V} (n : N) (k : string) (v : V) (o : object V)
  : object V :=
  match o with
  | [] => [(k, v)]
  | (k', v') :: rest =>
      match arrayIndex k' with
      | Some m =>
          if (m <? n)%N then (k', v') :: insertIndex n k v rest
          else (k, v) :: o
      | None => (k, v) :: o
      end
  end.

(** The assignment [o[k] = v] on an ordinary object: an existing own
    property keeps its place, a new one is created. *)
Definition setProp {V} (k : string) (v : V) (o : object V) : object V :=
  if hasOwn k o then update k v o
  else match arrayIndex k with
       | Some n => insertIndex n k v o
       | None => o ++ [(k, v)]
       end.

(** Names of the properties of [Object.prototype] under Deno, which
    removes the [__proto__] accessor. *)
Definition objectPrototype : list string :=
  [ "constructor"; "__defineGetter__"; "__defineSetter__"; "hasOwnProperty";
    "__lookupGetter__"; "__lookupSetter__"; "isPrototypeOf";
    "propertyIsEnumerable"; "toString"; "valueOf"; "toLocaleString" ].

Definition inherited (k : string) : bool :=
  existsb (String.eqb k) objectPrototype.

(** The operator [k in o] on a plain object: own properties and the
    prototype chain. *)
Definition hasProperty {V} (k : string) (o : object V) : bool :=
  hasOwn k o || inherited k.

(** What the property read [o[k]] yields on a plain object. *)
Inductive read (V : Type) : Type :=
| Own (v : V)
| Builtin (name : string)
| Undefined.
Arguments Own {V} v.
Arguments Builtin {V} name.
Arguments Undefined {V}.

Definition getProp {V} (k : string) (o : object V) : read V :=
  match getOwn k o with
  | Some v => Own v
  | None => if inherited k then Builtin k else Undefined
  end.

(** [Array.prototype.includes] and [Array.prototype.indexOf] on arrays of
    strings. *)
Definition includes (x : string) (l : list string) : bool :=
  existsb (String.eqb x) l.

Fixpoint indexOfFrom (x : string) (l : list string) (i : Z) : Z :=
  match l with
  | [] => (-1)%Z
  | y :: rest => if String.eqb y x then i else indexOfFrom x rest (i + 1)%Z
  end.

Definition indexOf (x : string) (l : list string) : Z := indexOfFrom x l 0.

End JS.

(* ================================================================== *)
(** * Parsed JSON documents *)

(** The result of [JSON.parse].  Only the fact that a value is a number
    matters to the schemas below, so numbers carry an integer. *)
#[local] Unset Elimination Schemes.
Inductive json : Type :=
| JNull
| JBool (b : bool)
| JNum (n : Z)
| JStr (s : string)
| JArr (items : list json)
| JObj (props : list (string * json)).
#[local] Set Elimination Schemes.

(** Outcome of an operation that may throw. *)
Inductive error : Type :=
| ZodError
| MissingPlaceholderError (names : list string).

Inductive result (A : Type) : Type :=
| Ok (a : A)
| Throw (e : error).
Arguments Ok {A} a.
Arguments Throw {A} e.

Notation "x <- e ;; k" :=
  (match e with Some x => k | None => None end)
  (at level 61, e at next level, right associativity).

Fixpoint traverse {A B} (f : A -> option B) (l : list A) : option (list B) :=
  match l with
  | [] => Some []
  | a :: rest => b <- f a ;; bs <- traverse f rest ;; Some (b :: bs)
  end.

(* ================================================================== *)
(** * Text *)

Module Text.

(** White space and line terminators of ECMAScript, in UTF-8: one byte
    (TAB, LF, VT, FF, CR, SP), two bytes (U+00A0), three bytes (U+1680,
    U+2000 to U+200A, U+2028, U+2029, U+202F, U+205F, U+3000, U+FEFF). *)
Definition ws1 (a : N) : bool :=
  ((9 <=? a) && (a <=? 13) || (a =? 32))%N.

Definition ws2 (a b : N) : bool := ((a =? 194) && (b =? 160))%N.

Definition ws3 (a b c : N) : bool :=
  ((a =? 225) && (b =? 154) && (c =? 128)
   || (a =? 226) && (b =? 128)
      && ((128 <=? c) && (c <=? 138) || (c =? 168) || (c =? 169) || (c =? 175))
   || (a =? 226) && (b =? 129) && (c =? 159)
   || (a =? 227) && (b =? 128) && (c =? 128)
   || (a =? 239) && (b =? 187) && (c =? 191))%N.

(** Drops leading white space; with [back] the bytes are read in reverse,
    so that it drops trailing white space of a reversed string. *)
Fixpoint strip (back : bool) (l : list ascii) {struct l} : list ascii :=
  match l with
  | [] => []
  | a :: r1 =>
      if ws1 (N_of_ascii a) then strip back r1
      else
        match r1 with
        | [] => l
        | b :: r2 =>
            if (if back then ws2 (N_of_ascii b) (N_of_ascii a)
                else ws2 (N_of_ascii a) (N_of_ascii b))
            then strip back r2
            else
              match r2 with
              | [] => l
              | c :: r3 =>
                  if (if back
                      then ws3 (N_of_ascii c) (N_of_ascii b) (N_of_ascii a)
                      else ws3 (N_of_ascii a) (N_of_ascii b) (N_of_ascii c))
                  then strip back r3
                  else l
              end
        end
  end.

(** [String.prototype.trim] *)
Definition trim (s : string) : string :=
  string_of_list_ascii
    (rev (strip true (rev (strip false (list_ascii_of_string s))))).

Definition isEmpty (s : string) : bool :=
  match s with EmptyString => true | _ => false end.

(** [\w] *)
Definition wordChar (c : ascii) : bool :=
  let n := N_of_ascii c in
  ((48 <=? n) && (n <=? 57) || (65 <=? n) && (n <=? 90)
   || (97 <=? n) && (n <=? 122) || (n =? 95))%N.

End Text.

(** [EMOJI_CODE_REGEX = /^:\w+:$/], as the predicate [regex.test]. *)
Definition EMOJI_CODE_REGEX (s : string) : bool :=
  match list_ascii_of_string s with
  | ":"%char :: rest =>
      match rev rest with
      | ":"%char :: name =>
          negb (Nat.eqb (List.length name) 0) && forallb Text.wordChar name
      | _ => false
      end
  | _ => false
  end.

(** [EMOJI_CODE_REGEX_GLOBAL = /:\w+:/g]: the codes of a string, as
    the global pattern finds them from left to right, each search
    starting where the last match ended.  A match starts at a colon that
    one or more word characters and a colon follow; the run of word
    characters is taken whole, no shorter run being followed by a colon. *)
Module EmojiCodes.

Inductive piece : Type :=
| Text (c : ascii)
| Code (code : list ascii).

(** [scan l name] reads [l]; [name] holds, in reverse, the word
    characters read since a colon that may open a code. *)
Fixpoint scan (l : list ascii) (name : option (list ascii)) {struct l}
  : list piece :=
  match l, name with
  | [], None => []
  | [], Some n => map Text (":"%char :: rev n)
  | c :: rest, None =>
      if Ascii.eqb c ":" then scan rest (Some [])
      else Text c :: scan rest None
  | c :: rest, Some n =>
      if Text.wordChar c then scan rest (Some (c :: n))
      else if Ascii.eqb c ":" then
        match n with
        | [] => Text ":" :: scan rest (Some [])
        | _ => Code (":"%char :: rev n ++ [":"%char]) :: scan rest None
        end
      else map Text (":"%char :: rev n) ++ Text c :: scan rest None
  end.

Definition pieces (s : string) : list piece :=
  scan (list_ascii_of_string s) None.

Definition codes (s : string) : list string :=
  flat_map
    (fun p => match p with
              | Text _ => []
              | Code m => [string_of_list_ascii m]
              end)
    (pieces s).

(** [s.match(EMOJI_CODE_REGEX_GLOBAL)]: the matches, or [null]. *)
Definition matchGlobal (s : string) : option (list string) :=
  match codes s with
  | [] => None
  | found => Some found
  end.

End EmojiCodes.

(* ================================================================== *)
(** * Schemas *)

(** A schema receives what a property read produced and either returns
    the parsed output or reports issues ([None]); any issue makes
    [schema.parse] throw a [ZodError]. *)
Module Zod.

Definition input := JS.read json.

Definition schema (A : Type) := input -> option A.

(** [z.string()] *)
Definition string : schema String.string := fun v =>
  match v with JS.Own (JStr s) => Some s | _ => None end.

(** [z.string().regex(re)] *)
Definition regex (test : String.string -> bool) : schema String.string :=
  fun v => s <- string v ;; if test s then Some s else None.

(** [z.boolean()] *)
Definition boolean : schema bool := fun v =>
  match v with JS.Own (JBool b) => Some b | _ => None end.

(** [z.enum(values)] *)
Definition enum (values : list String.string) : schema String.string :=
  fun v => s <- string v ;; if JS.includes s values then Some s else None.

(** [schema.nullable()] *)
Definition nullable {A} (s : schema A) : schema (option A) := fun v =>
  match v with
  | JS.Own JNull => Some None
  | _ => a <- s v ;; Some (Some a)
  end.

(** [schema.default(d)] *)
Definition default {A} (d : A) (s : schema A) : schema A := fun v =>
  match v with
  | JS.Undefined => Some d
  | _ => s v
  end.

(** [z.array(element)] *)
Definition array {A} (element : schema A) : schema (list A) := fun v =>
  match v with
  | JS.Own (JArr items) => traverse (fun j => element (JS.Own j)) items
  | _ => None
  end.

(** [z.record(key, value)]: every own key and value is parsed; the
    output object is built by assignment under the parsed keys, an entry
    whose parsed key is [__proto__] being left out. *)
Definition record {A} (key : schema String.string) (value : schema A)
  : schema (JS.object A) := fun v =>
  match v with
  | JS.Own (JObj data) =>
      fold_left
        (fun acc '(k, j) =>
           out <- acc ;;
           k' <- key (JS.Own (JStr k)) ;;
           a <- value (JS.Own j) ;;
           Some (if String.eqb k' "__proto__" then out
                 else JS.setProp k' a out))
        data (Some [])
  | _ => None
  end.

(** [z.object(shape)] for a shape whose members have one output type:
    each member parses [data[key]]; keys outside the shape are dropped. *)
Definition object {A} (shape : JS.object (schema A)) : schema (JS.object A) :=
  fun v =>
  match v with
  | JS.Own (JObj data) =>
      fold_left
        (fun acc '(k, s) =>
           out <- acc ;;
           a <- s (JS.getProp k data) ;;
           Some (JS.setProp k a out))
        shape (Some [])
  | _ => None
  end.

(** [z.object(shape).keyof()] *)
Definition keyof {A} (shape : JS.object (schema A)) : schema String.string :=
  enum (JS.keys shape).

End Zod.

(** [TextSchema = z.string().trim().min(1)] *)
Definition TextSchema : Zod.schema string := fun v =>
  s <- Zod.string v ;;
  let t := Text.trim s in
  if Text.isEmpty t then None else Some t.

(* ================================================================== *)
(** * Commit types, aliases and the configuration *)

(** [ReleaseTypeSchema = z.enum(["major", "minor", "patch"])] *)
Inductive ReleaseType : Type := major | minor | patch.

Definition ReleaseTypeSchema : Zod.schema ReleaseType := fun v =>
  s <- Zod.enum ["major"; "minor"; "patch"] v ;;
  if String.eqb s "major" then Some major
  else if String.eqb s "minor" then Some minor
  else Some patch.

Module EmojiObject.
Record t : Type := { character : string; code : string; name : string }.
End EmojiObject.

Module CommitType.
Record t : Type :=
  { type : string;
    title : string;
    description : string;
    semver : option ReleaseType;
    changelog : bool;
    emoji : EmojiObject.t }.
End CommitType.

Module CommitAlias.
Record t : Type :=
  { type : string;
    description : string;
    semver : option ReleaseType;
    changelog : bool;
    emoji : EmojiObject.t;
    name : string }.
End CommitAlias.

(** [CommitType & { index: number }] *)
Module IndexedType.
Record t : Type := { commitType : CommitType.t; index : Z }.
Definition type (c : t) : string := CommitType.type (commitType c).
Definition emoji (c : t) : EmojiObject.t := CommitType.emoji (commitType c).
End IndexedType.

(** Output of the [z.object({ types, aliases, fallback, scopes, order })]
    stage; [scopes] is [z.custom()] without a check, which lets any value
    through, a missing one included. *)
Module Parsed.
Record t : Type :=
  { types : JS.object CommitType.t;
    aliases : JS.object CommitAlias.t;
    fallback : string;
    scopes : JS.read json;
    order : list string }.
End Parsed.

(** Output of [ConfigurationSchema], after [refine] and [transform]. *)
Module ConfigurationProperties.
Record t : Type :=
  { types : JS.object CommitType.t;
    aliases : JS.object CommitAlias.t;
    fallback : string;
    scopes : JS.object (list string);
    order : list string }.
End ConfigurationProperties.

(** An instance of the class [Configuration]. *)
Module Configuration.
Record t : Type :=
  { types : JS.object IndexedType.t;
    aliases : JS.object CommitAlias.t;
    fallback : string;
    scopes : JS.object (list string);
    order : list string }.
End Configuration.

Section Resolver.

(** [EMOJI_CHAR_REGEX_GLOBAL = emojiRegex()]: the pattern comes from the
    package [emoji-regex]; its [test] is taken as given. *)
Variable EMOJI_CHAR_REGEX_GLOBAL : string -> bool.

Definition EmojiObjectSchema : Zod.schema EmojiObject.t := fun v =>
  match v with
  | JS.Own (JObj o) =>
      character <- Zod.regex EMOJI_CHAR_REGEX_GLOBAL (JS.getProp "character" o) ;;
      code <- Zod.regex EMOJI_CODE_REGEX (JS.getProp "code" o) ;;
      name <- Zod.string (JS.getProp "name" o) ;;
      Some {| EmojiObject.character := character;
              EmojiObject.code := code;
              EmojiObject.name := name |}
  | _ => None
  end.

Definition CommitTypeSchema : Zod.schema CommitType.t := fun v =>
  match v with
  | JS.Own (JObj o) =>
      type <- TextSchema (JS.getProp "type" o) ;;
      title <- TextSchema (JS.getProp "title" o) ;;
      description <- TextSchema (JS.getProp "description" o) ;;
      semver <- Zod.nullable ReleaseTypeSchema (JS.getProp "semver" o) ;;
      changelog <- Zod.boolean (JS.getProp "changelog" o) ;;
      emoji <- EmojiObjectSchema (JS.getProp "emoji" o) ;;
      Some {| CommitType.type := type;
              CommitType.title := title;
              CommitType.description := description;
              CommitType.semver := semver;
              CommitType.changelog := changelog;
              CommitType.emoji := emoji |}
  | _ => None
  end.

(** [CommitTypeSchema.omit({ title: true }).extend({ name: TextSchema })] *)
Definition CommitAliasSchema : Zod.schema CommitAlias.t := fun v =>
  match v with
  | JS.Own (JObj o) =>
      type <- TextSchema (JS.getProp "type" o) ;;
      description <- TextSchema (JS.getProp "description" o) ;;
      semver <- Zod.nullable ReleaseTypeSchema (JS.getProp "semver" o) ;;
      changelog <- Zod.boolean (JS.getProp "changelog" o) ;;
      emoji <- EmojiObjectSchema (JS.getProp "emoji" o) ;;
      name <- TextSchema (JS.getProp "name" o) ;;
      Some {| CommitAlias.type := type;
              CommitAlias.description := description;
              CommitAlias.semver := semver;
              CommitAlias.changelog := changelog;
              CommitAlias.emoji := emoji;
              CommitAlias.name := name |}
  | _ => None
  end.

(** The [z.object({...})] stage of [ConfigurationSchema]. *)
Definition ConfigurationObject : Zod.schema Parsed.t := fun v =>
  match v with
  | JS.Own (JObj o) =>
      types <- Zod.record TextSchema CommitTypeSchema (JS.getProp "types" o) ;;
      aliases <- Zod.record TextSchema CommitAliasSchema (JS.getProp "aliases" o) ;;
      fallback <- TextSchema (JS.getProp "fallback" o) ;;
      order <- Zod.default [] (Zod.array TextSchema) (JS.getProp "order" o) ;;
      Some {| Parsed.types := types;
              Parsed.aliases := aliases;
              Parsed.fallback := fallback;
              Parsed.scopes := JS.getProp "scopes" o;
              Parsed.order := order |}
  | _ => None
  end.

(** The predicate of [refine]: [fallback in types]. *)
Definition fallbackInTypes (value : Parsed.t) : bool :=
  JS.hasProperty (Parsed.fallback value) (Parsed.types value).

(** The loop of [transform]: one pass over [keys] that fills [shape] and
    pushes onto [order] the keys it does not include. *)
Definition scopeSchema : Zod.schema (list string) :=
  Zod.default [] (Zod.array TextSchema).

Definition complete (keys : list string)
  (start : JS.object (Zod.schema (list string)) * list string)
  : JS.object (Zod.schema (list string)) * list string :=
  fold_left
    (fun '(shape, order) key =>
       (JS.setProp key scopeSchema shape,
        if negb (JS.includes key order) then order ++ [key] else order))
    keys start.

Definition transform (value : Parsed.t) : option ConfigurationProperties.t :=
  let keys := JS.keys (Parsed.types value) in
  let '(shape, order) := complete keys ([], Parsed.order value) in
  let schema := Zod.object shape in
  scopes <- schema (Parsed.scopes value) ;;
  order <- Zod.array (Zod.keyof shape) (JS.Own (JArr (map JStr order))) ;;
  Some {| ConfigurationProperties.types := Parsed.types value;
          ConfigurationProperties.aliases := Parsed.aliases value;
          ConfigurationProperties.fallback := Parsed.fallback value;
          ConfigurationProperties.scopes := scopes;
          ConfigurationProperties.order := order |}.

(** [ConfigurationSchema.parse]: the transform runs only on a value that
    passed the object stage and the refinement. *)
Definition ConfigurationSchema : Zod.schema ConfigurationProperties.t :=
  fun v =>
  value <- ConfigurationObject v ;;
  if fallbackInTypes value then transform value else None.

(** The body of the constructor's loop, for one entry of [this.types]. *)
Definition assignIndex (order : list string) (commitType : CommitType.t)
  : IndexedType.t :=
  {| IndexedType.commitType := commitType;
     IndexedType.index := JS.indexOf (CommitType.type commitType) order |}.

(** [new Configuration(value)] *)
Definition constructor (value : json) : result Configuration.t :=
  match ConfigurationSchema (JS.Own value) with
  | None => Throw ZodError
  | Some p =>
      Ok {| Configuration.types :=
              map (fun '(key, commitType) =>
                     (key, assignIndex (ConfigurationProperties.order p) commitType))
                  (ConfigurationProperties.types p);
            Configuration.aliases := ConfigurationProperties.aliases p;
            Configuration.fallback := ConfigurationProperties.fallback p;
            Configuration.scopes := ConfigurationProperties.scopes p;
            Configuration.order := ConfigurationProperties.order p |}
  end.

(** [Configuration.fromFile], on the parsed content of the file. *)
Definition fromFile (raw : json) : result Configuration.t := constructor raw.

End Resolver.

(* ================================================================== *)
(** * Deep merge *)

(** [deepMerge] of Deno's standard library (std 0.208.0,
    [collections/deep_merge.ts]), which [configuration.ts] imports.  Its
    options choose, for arrays, between the strategies ["replace"] and
    ["merge"]; a call without options, as in [fromFiles], takes the
    default, ["merge"].  (The strategies for sets and maps are left out:
    parsed JSON holds neither.)  The operands are parsed JSON, in which
    no object occurs twice, so the set of objects already seen never
    stops the recursion and is left out as well. *)
Module DeepMerge.

Inductive MergingStrategy : Type := replace | merge.

Record DeepMergeOptions : Type := { arrays : MergingStrategy }.

(** The default value of the parameter [options] of [mergeObjects]. *)
Definition defaultOptions : DeepMergeOptions := {| arrays := merge |}.

(** [value !== null && typeof value === "object"] *)
Definition isNonNullObject (j : json) : bool :=
  match j with JObj _ | JArr _ => true | _ => false end.

(** The iterations of the loop of [deepMergeInternal] over the keys of
    [record]; [mergeObjects] is passed as [merge]. *)
Fixpoint mergeOwn (merge : json -> json -> json) (other : JS.object json)
  (props result : JS.object json) {struct props} : JS.object json :=
  match props with
  | [] => result
  | (key, a) :: rest =>
      mergeOwn merge other rest
        (if String.eqb key "__proto__" then result
         else
           match JS.getOwn key other with
           | None => JS.setProp key a result
           | Some b =>
               if isNonNullObject a && isNonNullObject b
               then JS.setProp key (merge a b) result
               else JS.setProp key b result
           end)
  end.

(** The iterations over the keys that only [other] has: there
    [record[key]] is not an object, and the value of [other] is taken. *)
Definition mergeNew (record other result : JS.object json) : JS.object json :=
  fold_left
    (fun result '(key, b) =>
       if JS.hasOwn key record || String.eqb key "__proto__" then result
       else JS.setProp key b result)
    other result.

Fixpoint mergeObjects (options : DeepMergeOptions) (left right : json)
  {struct left} : json :=
  match left, right with
  | JObj record, JObj other =>
      JObj (mergeNew record other
              (mergeOwn (mergeObjects options) other record []))
  | JArr l, JArr r =>
      match arrays options with
      | merge => JArr (l ++ r)
      | replace => right
      end
  | _, _ => right
  end.

Definition deepMergeInternal (options : DeepMergeOptions)
  (record other : JS.object json) : JS.object json :=
  mergeNew record other (mergeOwn (mergeObjects options) other record []).

Definition deepMerge (record other : JS.object json)
  (options : option DeepMergeOptions) : JS.object json :=
  deepMergeInternal
    (match options with Some o => o | None => defaultOptions end)
    record other.

End DeepMerge.

(** The document [fromFiles] hands to the constructor: the deep merge of
    the two parsed files, whose [order] is then overwritten by the one of
    the custom file when that file has the property. *)
Definition merged (rawDefaults rawCustom : JS.object json) : JS.object json :=
  let merged := DeepMerge.deepMerge rawDefaults rawCustom None in
  if JS.hasProperty "order" rawCustom then
    match JS.getProp "order" rawCustom with
    | JS.Own order => JS.setProp "order" order merged
    | _ => merged
    end
  else merged.

Section Loaders.

Variable EMOJI_CHAR_REGEX_GLOBAL : string -> bool.

(** [Configuration.fromFiles], on the parsed contents of the two files,
    both of them JSON objects. *)
Definition fromFiles (rawDefaults rawCustom : JS.object json)
  : result Configuration.t :=
  constructor EMOJI_CHAR_REGEX_GLOBAL (JObj (merged rawDefaults rawCustom)).

End Loaders.

(* ================================================================== *)
(** * Lookups *)

(** A lookup returns [null] ([None]) or the value of a property read. *)
Section Lookups.

Variable this : Configuration.t.

Definition findTypeByName (name : string) : option (JS.read IndexedType.t) :=
  if JS.hasProperty name (Configuration.types this)
  then Some (JS.getProp name (Configuration.types this))
  else None.

Definition findAliasByName (name : string) : option (JS.read CommitAlias.t) :=
  if JS.hasProperty name (Configuration.aliases this)
  then Some (JS.getProp name (Configuration.aliases this))
  else None.

(** [alias.type]: a record has the field; on a member of
    [Object.prototype] the read gives [undefined], which as a property
    key is the string ["undefined"]. *)
Definition aliasType (alias : JS.read CommitAlias.t) : string :=
  match alias with
  | JS.Own a => CommitAlias.type a
  | _ => "undefined"
  end.

Definition findTypeByAliasName (name : string)
  : option (JS.read IndexedType.t) :=
  match findAliasByName name with
  | None => None
  | Some alias => findTypeByName (aliasType alias)
  end.

Definition findTypeByEmojiCode (emoji : string) : option IndexedType.t :=
  option_map snd
    (find (fun '(_, type) =>
             String.eqb (EmojiObject.code (IndexedType.emoji type)) emoji)
          (Configuration.types this)).

Definition findAliasByEmojiCode (emoji : string) : option CommitAlias.t :=
  option_map snd
    (find (fun '(_, alias) =>
             String.eqb (EmojiObject.code (CommitAlias.emoji alias)) emoji)
          (Configuration.aliases this)).

End Lookups.

(* ================================================================== *)
(** * Template engine *)

Module Template.

(** Modelled from the spec: [source/template.ts] is not among the
    sources; the engine is written after section 4.2 of the
    specification and the tests of [test/template.test.ts].  A
    replacement value is a string, a number or a boolean.  Numbers are
    integers here; their text is the decimal numeral. *)
Inductive scalar : Type :=
| Str (s : string)
| Num (n : Z)
| Bool (b : bool).

(** Modelled from the spec: the canonical text of a value. *)
Definition toText (v : scalar) : string :=
  match v with
  | Str s => s
  | Num n => NilZero.string_of_int (Z.to_int n)
  | Bool true => "true"
  | Bool false => "false"
  end.

(** Modelled from the spec: a template is a pattern, [source], with the
    defaults given at construction, which the tests read back as
    [replacements]. *)
Record t : Type :=
  { source : string;
    replacements : JS.object scalar }.

(** Coercion to text. *)
Definition toString (template : t) : string := source template.

(** A pattern is a sequence of literal text and placeholders. *)
Inductive segment : Type :=
| Literal (text : list ascii)
| Placeholder (name : list ascii).

Definition literal (text : list ascii) (rest : list segment) : list segment :=
  match text with
  | [] => rest
  | _ => Literal (rev text) :: rest
  end.

(** Modelled from the spec: a placeholder is a name enclosed in a single
    pair of braces, the name holding neither brace (and at least one
    character).
    [scan] reads the pattern once; [text] is the literal text read so
    far and [name] the name being read after an opening brace, both in
    reverse. *)
Fixpoint scan (l text : list ascii) (name : option (list ascii))
  {struct l} : list segment :=
  match l, name with
  | [], None => literal text []
  | [], Some n => literal (n ++ "{"%char :: text) []
  | c :: rest, None =>
      if Ascii.eqb c "{" then scan rest text (Some [])
      else scan rest (c :: text) None
  | c :: rest, Some n =>
      if Ascii.eqb c "}" then
        match n with
        | [] => scan rest ("}"%char :: "{"%char :: text) None
        | _ => literal text (Placeholder (rev n) :: scan rest [] None)
        end
      else if Ascii.eqb c "{" then scan rest (n ++ "{"%char :: text) (Some [])
      else scan rest text (Some (c :: n))
  end.

Definition segments (pattern : string) : list segment :=
  scan (list_ascii_of_string pattern) [] None.

Definition placeholders (pattern : string) : list string :=
  flat_map
    (fun seg =>
       match seg with
       | Literal _ => []
       | Placeholder n => [string_of_list_ascii n]
       end)
    (segments pattern).

(** A segment written back as it stands in the pattern. *)
Definition verbatim (seg : segment) : list ascii :=
  match seg with
  | Literal text => text
  | Placeholder n => "{"%char :: n ++ ["}"%char]
  end.

(** Modelled from the spec: the replacement of a placeholder is looked up
    first in the supplied values, then in the defaults. *)
Definition resolve (values defaults : JS.object scalar) (name : string)
  : option scalar :=
  match JS.getOwn name values with
  | Some v => Some v
  | None => JS.getOwn name defaults
  end.

Definition substitute (lookup : string -> option scalar) (seg : segment)
  : list ascii :=
  match seg with
  | Literal text => text
  | Placeholder n =>
      match lookup (string_of_list_ascii n) with
      | Some v => list_ascii_of_string (toText v)
      | None => verbatim seg
      end
  end.

Definition fill (lookup : string -> option scalar) (pattern : string)
  : string :=
  string_of_list_ascii (flat_map (substitute lookup) (segments pattern)).

(** Modelled from the spec: [render] fails with a
    [MissingPlaceholderError] naming the placeholders that neither the
    values nor the defaults resolve, and otherwise returns the pattern
    with every placeholder replaced. *)
Definition render (template : t) (values : JS.object scalar)
  : result string :=
  let lookup := resolve values (replacements template) in
  match
    filter (fun n => match lookup n with Some _ => false | None => true end)
           (placeholders (source template))
  with
  | [] => Ok (fill lookup (source template))
  | missing => Throw (MissingPlaceholderError missing)
  end.

(** Modelled from the spec: the name of a placeholder holds no brace. *)
Definition braceless (n : list ascii) : Prop :=
  ~ In "{"%char n /\ ~ In "}"%char n.

(** Modelled from the spec: a placeholder is still open after a call of
    [partialRender] when the pattern has it and the supplied values do
    not name it. *)
Definition stillOpen (template : t) (values : JS.object scalar)
  (name : string) : bool :=
  JS.includes name (placeholders (source template))
  && negb (JS.hasOwn name values).

(** Modelled from the spec: [partialRender] as section 4.2, section 8
    and the tests of [test/template.test.ts] fix it.  With the defaults
    [{first_name, last_name}] and the value [{first_name}] the returned
    template still carries the default of [last_name]: a placeholder
    that only a default could resolve stays open, so the substitution
    draws on the supplied values alone; the defaults are carried forward
    for the placeholders that are still open, and for no other name. *)
Definition partialRender (template : t) (values : JS.object scalar) : t :=
  {| source := fill (fun n => JS.getOwn n values) (source template);
     replacements :=
       filter (fun '(n, _) => stillOpen template values n)
              (replacements template) |}.

(** Modelled from the spec: the instances live in a store, an instance
    being known by its position; constructing one adds it and leaves the
    others as they are. *)
Definition store : Type := list t.

Definition construct (instances : store) (template : t) : store * nat :=
  (instances ++ [template], List.length instances).

(** Modelled from the spec: the method [partialRender] of the instance
    [this]: it constructs the new template and returns it. *)
Definition partialRenderOf (instances : store) (this : nat)
  (values : JS.object scalar) : option (store * nat) :=
  match nth_error instances this with
  | Some template => Some (construct instances (partialRender template values))
  | None => None
  end.

(** The reading of section 4.2, kept for comparison: every placeholder
    that the values or the defaults resolve is substituted, and a
    default is carried forward only for a placeholder of the pattern
    that was not resolved. *)
Definition partialRender_spec (template : t) (values : JS.object scalar) : t :=
  let lookup := resolve values (replacements template) in
  {| source := fill lookup (source template);
     replacements :=
       filter
         (fun '(n, _) =>
            JS.includes n (placeholders (source template))
            && match lookup n with Some _ => false | None => true end)
         (replacements template) |}.

End Template.

(* ================================================================== *)
(** * Vocabulary of the statements *)

(** The [order] a document supplies, as the schema reads it: its string
    entries trimmed; no entry when the document has no [order]. *)
Definition suppliedOrder (raw : json) : list string :=
  match raw with
  | JObj doc =>
      match JS.getOwn "order" doc with
      | Some (JArr items) =>
          flat_map
            (fun j => match j with JStr s => [Text.trim s] | _ => [] end)
            items
      | _ => []
      end
  | _ => []
  end.

(** The keys of the [types] a document supplies, as the schema reads
    them: trimmed. *)
Definition suppliedTypeKeys (raw : json) : list string :=
  match raw with
  | JObj doc =>
      match JS.getOwn "types" doc with
      | Some (JObj types) => map Text.trim (JS.keys types)
      | _ => []
      end
  | _ => []
  end.

(** The keys a pass over [keys] appends to [order]. *)
Definition missingKeys (order keys : list string) : list string :=
  filter (fun key => negb (JS.includes key order)) keys.

(** A configuration a loader returned. *)
Definition resolved (EMOJI_CHAR_REGEX_GLOBAL : string -> bool)
  (this : Configuration.t) : Prop :=
  (exists raw, fromFile EMOJI_CHAR_REGEX_GLOBAL raw = Ok this)
  \/ (exists rawDefaults rawCustom,
        fromFiles EMOJI_CHAR_REGEX_GLOBAL rawDefaults rawCustom = Ok this).

(** The value [deepMergeInternal] stores under a key of [record] whose
    value there is [a]. *)
Definition mergedValue (options : DeepMerge.DeepMergeOptions) (key : string)
  (a : json) (other : JS.object json) : json :=
  match JS.getOwn key other with
  | None => a
  | Some b =>
      if DeepMerge.isNonNullObject a && DeepMerge.isNonNullObject b
      then DeepMerge.mergeObjects options a b
      else b
  end.


(** A sample of the emoji pattern for running the resolver on documents:
    it accepts a string that is one of a few emoji characters of the
    fixture [defaults.json], all of which the pattern of [emoji-regex]
    matches. *)
Definition sampleEmoji (s : string) : bool :=
  JS.includes s ["✨"; "🧹"; "📦"; "🎉"].

(** Whether [strip] drops something at the head of [l]. *)
Definition leading (back : bool) (l : list ascii) : bool :=
  match l with
  | [] => false
  | a :: r1 =>
      Text.ws1 (N_of_ascii a)
      || match r1 with
         | [] => false
         | b :: r2 =>
             (if back then Text.ws2 (N_of_ascii b) (N_of_ascii a)
              else Text.ws2 (N_of_ascii a) (N_of_ascii b))
             || match r2 with
                | [] => false
                | c :: _ =>
                    if back
                    then Text.ws3 (N_of_ascii c) (N_of_ascii b) (N_of_ascii a)
                    else Text.ws3 (N_of_ascii a) (N_of_ascii b) (N_of_ascii c)
                end
         end
  end.

(** A text as [TextSchema] returns it: not empty, and unchanged by
    trimming. *)
Definition validText (t : string) : Prop :=
  t <> EmptyString /\ Text.trim t = t.

(** An emoji as [EmojiObjectSchema] returns it. *)
Definition validEmoji (EMOJI_CHAR_REGEX_GLOBAL : string -> bool)
  (e : EmojiObject.t) : Prop :=
  EMOJI_CHAR_REGEX_GLOBAL (EmojiObject.character e) = true
  /\ EMOJI_CODE_REGEX (EmojiObject.code e) = true.

(** The properties of a document that [ConfigurationSchema] reads. *)
Definition schemaProperties : list string :=
  ["types"; "aliases"; "fallback"; "scopes"; "order"].

(** Two documents that hold the same values under those properties. *)
Definition sameProperties (d1 d2 : JS.object json) : Prop :=
  forall k, In k schemaProperties -> JS.getOwn k d1 = JS.getOwn k d2.

(* ================================================================== *)
(** * Sample documents *)

Module Sample.

Definition emoji : json :=
  JObj [("character", JStr "✨"); ("code", JStr ":sparkles:");
        ("name", JStr "sparkles")].

Definition commitType (type : string) : json :=
  JObj [("type", JStr type); ("title", JStr "Title");
        ("description", JStr "A description."); ("semver", JNull);
        ("changelog", JBool true); ("emoji", emoji)].

Definition commitAlias (name type : string) : json :=
  JObj [("type", JStr type); ("name", JStr name);
        ("description", JStr "A description."); ("semver", JNull);
        ("changelog", JBool false); ("emoji", emoji)].

Definition document (types aliases : JS.object json) (fallback : string)
  (scopes : JS.object json) (order : list string) : JS.object json :=
  [("types", JObj types); ("aliases", JObj aliases);
   ("fallback", JStr fallback); ("scopes", JObj scopes);
   ("order", JArr (map JStr order))].

Definition types : JS.object json :=
  [("feat", commitType "feat"); ("fix", commitType "fix")].

Definition aliases : JS.object json :=
  [("breaking", commitAlias "breaking" "feat")].

(** A defaults file: two types, one alias, scopes for one type. *)
Definition defaults : JS.object json :=
  document types aliases "fix" [("feat", JArr [JStr "api"])] ["fix"].

(** A custom file that overrides one title and adds a scope. *)
Definition custom : JS.object json :=
  [("types", JObj [("fix", JObj [("title", JStr "Fixes")])]);
   ("scopes", JObj [("feat", JArr [JStr "cli"])])].

(** A custom file whose [order] has an entry with a leading space. *)
Definition customOrder : JS.object json :=
  [("order", JArr [JStr " feat"])].

(** A type stored under a key that is not its [type]. *)
Definition renamed : JS.object json :=
  document [("feature", commitType "feat")] [] "feature" [] [].

(** An [order] that names a type twice. *)
Definition repeated : JS.object json :=
  document types aliases "fix" [] ["feat"; "feat"].

(** An [order] whose entry has a leading space. *)
Definition spaced : JS.object json :=
  document types aliases "fix" [] [" feat"].

(** An [order] that names something that is not a type. *)
Definition unknownOrder : JS.object json :=
  document types aliases "fix" [] ["docs"].

(** Scopes for an alias and for a type. *)
Definition aliasScopes : JS.object json :=
  document types aliases "fix"
    [("breaking", JArr [JStr "api"]); ("feat", JArr [JStr " core "])] [].

(** A [fallback] that names a member of [Object.prototype]. *)
Definition inheritedFallback : JS.object json :=
  document types aliases "toString" [] [].

Definition empty : Configuration.t :=
  {| Configuration.types := [];
     Configuration.aliases := [];
     Configuration.fallback := EmptyString;
     Configuration.scopes := [];
     Configuration.order := [] |}.

Definition construct (doc : JS.object json) : Configuration.t :=
  match constructor sampleEmoji (JObj doc) with
  | Ok this => this
  | Throw _ => empty
  end.

Definition configuration : Configuration.t :=
  Eval vm_compute in construct defaults.

Definition layered : Configuration.t :=
  Eval vm_compute in construct (merged defaults custom).

Definition layeredOrder : Configuration.t :=
  Eval vm_compute in construct (merged defaults customOrder).

Definition renamedConfiguration : Configuration.t :=
  Eval vm_compute in construct renamed.

Definition repeatedConfiguration : Configuration.t :=
  Eval vm_compute in construct repeated.

Definition spacedConfiguration : Configuration.t :=
  Eval vm_compute in construct spaced.

Definition aliasScopesConfiguration : Configuration.t :=
  Eval vm_compute in construct aliasScopes.

Definition inheritedFallbackConfiguration : Configuration.t :=
  Eval vm_compute in construct inheritedFallback.

(** The templates of [test/template.test.ts]. *)
Definition names : Template.t :=
  {| Template.source := "My name is {first_name} {last_name}";
     Template.replacements :=
       [("first_name", Template.Str "Unknown");
        ("last_name", Template.Str "Unknown")] |}.

Definition greeting : Template.t :=
  {| Template.source := "Hello {name}! My age is {age}.";
     Template.replacements :=
       [("name", Template.Str "Unknown"); ("age", Template.Num 25)] |}.

Definition hi : Template.t :=
  {| Template.source := "Hi {name}!"; Template.replacements := [] |}.

End Sample.

(* ================================================================== *)
(** * More sample documents *)

Module Layers.

(** The defaults with one more property, which the schema does not
    name. *)
Definition versioned : JS.object json :=
  Sample.defaults ++ [("version", JNum 1)].

(** The defaults with another order. *)
Definition reordered : JS.object json :=
  Sample.document Sample.types Sample.aliases "fix"
    [("feat", JArr [JStr "api"])] ["feat"; "fix"].

(** A custom file without any property the schema names. *)
Definition unrelated : JS.object json := [("version", JNum 2)].

(** A custom file that names another fallback. *)
Definition customFallback : JS.object json :=
  [("fallback", JStr " feat ")].

(** A custom file that adds a type. *)
Definition customTypes : JS.object json :=
  [("types", JObj [("docs", Sample.commitType "docs")])].

Definition fallbackConfiguration : Configuration.t :=
  Eval vm_compute in Sample.construct (merged Sample.defaults customFallback).

Definition typesConfiguration : Configuration.t :=
  Eval vm_compute in Sample.construct (merged Sample.defaults customTypes).

End Layers.

(* ================================================================== *)
(** * Properties of objects *)

Section ObjectFacts.
Import JS.
Context {V : Type}.
Implicit Types (o : object V) (k : string) (v : V).

Lemma getOwn_Some_In k o v : getOwn k o = Some v -> In (k, v) o.
Proof.
  induction o as [|[k' v'] rest IH]; simpl; [discriminate|].
  destruct (String.eqb_spec k' k) as [->|Hne].
  - intros [= ->]. now left.
  - intros H. right. auto.
Qed.

Lemma getOwn_None_keys k o : getOwn k o = None <-> ~ In k (keys o).
Proof.
  induction o as [|[k' v'] rest IH]; simpl; [tauto|].
  destruct (String.eqb_spec k' k) as [->|Hne].
  - split; [discriminate | intros H; exfalso; apply H; now left].
  - rewrite IH. split; [intros H [E|I]; [congruence|tauto] | tauto].
Qed.

Lemma getOwn_In_keys k o v : getOwn k o = Some v -> In k (keys o).
Proof.
  intros H. apply getOwn_Some_In in H. apply (in_map fst) in H. exact H.
Qed.

Lemma In_keys_getOwn k o : In k (keys o) -> exists v, getOwn k o = Some v.
Proof.
  intros H. destruct (getOwn k o) as [v|] eqn:E; [eauto|].
  apply getOwn_None_keys in E. contradiction.
Qed.

Lemma hasOwn_true k o : hasOwn k o = true <-> In k (keys o).
Proof.
  unfold hasOwn. split.
  - destruct (getOwn k o) eqn:E; [|discriminate]. intros _.
    eapply getOwn_In_keys; eauto.
  - intros H. apply In_keys_getOwn in H as [v ->]. reflexivity.
Qed.

Lemma hasOwn_false k o : hasOwn k o = false <-> ~ In k (keys o).
Proof.
  rewrite <- hasOwn_true. destruct (hasOwn k o); split; congruence.
Qed.

Lemma In_getOwn_NoDup k v o :
  NoDup (keys o) -> In (k, v) o -> getOwn k o = Some v.
Proof.
  induction o as [|[k' v'] rest IH]; simpl; [tauto|].
  intros Hnd [E|I].
  - injection E as -> ->. now rewrite String.eqb_refl.
  - inversion Hnd as [|? ? Hni Hnd']; subst.
    destruct (String.eqb_spec k' k) as [->|Hne].
    + exfalso. apply Hni. apply (in_map fst) in I. exact I.
    + auto.
Qed.

(** ** [update] *)

Lemma keys_update k v o : keys (update k v o) = keys o.
Proof.
  induction o as [|[k' v'] rest IH]; simpl; [reflexivity|].
  destruct (String.eqb k' k); simpl; congruence.
Qed.

Lemma getOwn_update_same k v o :
  In k (keys o) -> getOwn k (update k v o) = Some v.
Proof.
  induction o as [|[k' v'] rest IH]; simpl; [tauto|].
  destruct (String.eqb_spec k' k) as [->|Hne]; simpl.
  - now rewrite String.eqb_refl.
  - intros [E|I]; [congruence|].
    destruct (String.eqb_spec k' k); [congruence|auto].
Qed.

Lemma getOwn_update_other k k' v o :
  k <> k' -> getOwn k (update k' v o) = getOwn k o.
Proof.
  intros Hne.
  induction o as [|[k0 v0] rest IH]; simpl; [reflexivity|].
  destruct (String.eqb_spec k0 k') as [->|Hne']; simpl.
  - destruct (String.eqb_spec k' k); [congruence|reflexivity].
  - now rewrite IH.
Qed.

(** ** [insertIndex] *)

Lemma insertIndex_perm n k v o : Permutation (insertIndex n k v o) ((k, v) :: o).
Proof.
  induction o as [|[k' v'] rest IH]; simpl; [reflexivity|].
  destruct (arrayIndex k') as [m|]; [|reflexivity].
  destruct (m <? n)%N; [|reflexivity].
  rewrite IH. apply perm_swap.
Qed.

Lemma getOwn_insertIndex_same n k v o :
  ~ In k (keys o) -> getOwn k (insertIndex n k v o) = Some v.
Proof.
  induction o as [|[k' v'] rest IH]; simpl.
  - now rewrite String.eqb_refl.
  - intros Hni.
    destruct (arrayIndex k') as [m|]; simpl;
      [destruct (m <? n)%N; simpl|]; try now rewrite String.eqb_refl.
    destruct (String.eqb_spec k' k); [tauto|]. apply IH. tauto.
Qed.

Lemma getOwn_insertIndex_other n k k' v o :
  k <> k' -> getOwn k (insertIndex n k' v o) = getOwn k o.
Proof.
  intros Hne.
  induction o as [|[k0 v0] rest IH]; simpl.
  - destruct (String.eqb_spec k' k); [congruence|reflexivity].
  - destruct (arrayIndex k0) as [m|]; simpl;
      [destruct (m <? n)%N; simpl|];
      try (destruct (String.eqb_spec k' k); [congruence|reflexivity]).
    now rewrite IH.
Qed.

Lemma getOwn_app_other k k' v o :
  k <> k' -> getOwn k (o ++ [(k', v)]) = getOwn k o.
Proof.
  intros Hne.
  induction o as [|[k0 v0] rest IH]; simpl.
  - destruct (String.eqb_spec k' k); [congruence|reflexivity].
  - now rewrite IH.
Qed.

Lemma getOwn_app_same k v o :
  ~ In k (keys o) -> getOwn k (o ++ [(k, v)]) = Some v.
Proof.
  induction o as [|[k0 v0] rest IH]; simpl.
  - now rewrite String.eqb_refl.
  - intros Hni. destruct (String.eqb_spec k0 k); [tauto|]. apply IH. tauto.
Qed.

(** ** [setProp] *)

Lemma getOwn_setProp_same k v o : getOwn k (setProp k v o) = Some v.
Proof.
  unfold setProp. destruct (hasOwn k o) eqn:E.
  - apply getOwn_update_same. now apply hasOwn_true.
  - apply hasOwn_false in E.
    destruct (arrayIndex k).
    + now apply getOwn_insertIndex_same.
    + now apply getOwn_app_same.
Qed.

Lemma getOwn_setProp_other k k' v o :
  k <> k' -> getOwn k (setProp k' v o) = getOwn k o.
Proof.
  intros Hne. unfold setProp. destruct (hasOwn k' o).
  - now apply getOwn_update_other.
  - destruct (arrayIndex k').
    + now apply getOwn_insertIndex_other.
    + now apply getOwn_app_other.
Qed.

Lemma In_keys_setProp k k' v o :
  In k (keys (setProp k' v o)) <-> k = k' \/ In k (keys o).
Proof.
  rewrite <- !hasOwn_true. unfold hasOwn at 1.
  destruct (String.eqb_spec k k') as [->|Hne].
  - rewrite getOwn_setProp_same. tauto.
  - rewrite getOwn_setProp_other by exact Hne.
    fold (hasOwn k o). tauto.
Qed.

Lemma keys_setProp_perm k v o :
  ~ In k (keys o) -> Permutation (keys (setProp k v o)) (k :: keys o).
Proof.
  intros Hni. unfold setProp.
  apply hasOwn_false in Hni. rewrite Hni.
  destruct (arrayIndex k) as [n|].
  - unfold keys. change (k :: map fst o) with (map fst ((k, v) :: o)).
    apply Permutation_map, insertIndex_perm.
  - unfold keys. rewrite map_app. simpl.
    symmetry. apply Permutation_cons_append.
Qed.

Lemma NoDup_keys_setProp k v o :
  NoDup (keys o) -> NoDup (keys (setProp k v o)).
Proof.
  intros Hnd. destruct (hasOwn k o) eqn:E.
  - unfold setProp. rewrite E, keys_update. exact Hnd.
  - apply hasOwn_false in E.
    eapply Permutation_NoDup; [symmetry; now apply keys_setProp_perm|].
    now constructor.
Qed.

Lemma length_setProp_new k v o :
  ~ In k (keys o) -> List.length (setProp k v o) = S (List.length o).
Proof.
  intros Hni.
  pose proof (Permutation_length (keys_setProp_perm k v o Hni)) as H.
  unfold keys in H. simpl in H. now rewrite !length_map in H.
Qed.

End ObjectFacts.

(* ================================================================== *)
(** * Properties of arrays of strings *)

Section ArrayFacts.
Import JS.

Lemma includes_In x l : includes x l = true <-> In x l.
Proof.
  unfold includes. rewrite existsb_exists. split.
  - intros (y & Hy & E). apply String.eqb_eq in E. now subst.
  - intros H. exists x. split; [exact H | apply String.eqb_refl].
Qed.

Lemma includes_false x l : includes x l = false <-> ~ In x l.
Proof.
  rewrite <- includes_In. destruct (includes x l); split; congruence.
Qed.

Lemma indexOfFrom_absent x l i : ~ In x l -> indexOfFrom x l i = (-1)%Z.
Proof.
  revert i. induction l as [|y rest IH]; simpl; intros i Hni; [reflexivity|].
  destruct (String.eqb_spec y x); [tauto|]. apply IH. tauto.
Qed.

Lemma indexOfFrom_present x l i :
  In x l ->
  exists n, indexOfFrom x l i = (i + Z.of_nat n)%Z /\ nth_error l n = Some x.
Proof.
  revert i. induction l as [|y rest IH]; simpl; intros i Hin; [tauto|].
  destruct (String.eqb_spec y x) as [->|Hne].
  - exists 0%nat. split; [lia|reflexivity].
  - destruct Hin as [E|Hin]; [congruence|].
    destruct (IH (i + 1)%Z Hin) as (n & Hn & Hnth).
    exists (S n). split; [lia|exact Hnth].
Qed.

Lemma indexOf_absent x l : ~ In x l -> indexOf x l = (-1)%Z.
Proof. apply indexOfFrom_absent. Qed.

Lemma indexOf_present x l :
  In x l ->
  exists n, indexOf x l = Z.of_nat n /\ nth_error l n = Some x
            /\ (n < List.length l)%nat.
Proof.
  intros Hin. destruct (indexOfFrom_present x l 0 Hin) as (n & Hn & Hnth).
  exists n. repeat split; [exact Hn | exact Hnth |].
  apply nth_error_Some. congruence.
Qed.

Lemma count_occ_filter_new (order0 ks : list string) k :
  NoDup ks -> ~ In k order0 -> In k ks ->
  count_occ string_dec
    (filter (fun key => negb (includes key order0)) ks) k = 1%nat.
Proof.
  intros Hnd Hni Hin.
  assert (Hnd' : NoDup (filter (fun key => negb (includes key order0)) ks))
    by now apply NoDup_filter.
  rewrite (NoDup_count_occ string_dec) in Hnd'.
  specialize (Hnd' k).
  assert (Hin' : In k (filter (fun key => negb (includes key order0)) ks)).
  { apply filter_In. split; [exact Hin|].
    apply negb_true_iff, includes_false, Hni. }
  apply (count_occ_In string_dec) in Hin'. lia.
Qed.

End ArrayFacts.

(* ================================================================== *)
(** * Properties of the schemas *)

Section SchemaFacts.
Import JS.

Lemma traverse_Forall2 {A B} (f : A -> option B) l l' :
  traverse f l = Some l' -> Forall2 (fun a b => f a = Some b) l l'.
Proof.
  revert l'. induction l as [|a rest IH]; simpl; intros l'.
  - intros [= <-]. constructor.
  - destruct (f a) as [b|] eqn:Ea; [|discriminate].
    destruct (traverse f rest) as [bs|]; [|discriminate].
    intros [= <-]. constructor; auto.
Qed.

Lemma TextSchema_inv v t :
  TextSchema v = Some t ->
  exists s, v = Own (JStr s) /\ t = Text.trim s /\ t <> EmptyString.
Proof.
  unfold TextSchema, Zod.string.
  destruct v as [[| | |s| |]| |]; try discriminate.
  destruct (Text.trim s) eqn:E; simpl; [discriminate|].
  intros [= <-]. exists s. repeat split; congruence.
Qed.

(** An array of trimmed, non-empty strings parses as the list of its
    trimmed entries. *)
Lemma array_TextSchema_inv v l :
  Zod.array TextSchema v = Some l ->
  exists ss, v = Own (JArr (map JStr ss)) /\ l = map Text.trim ss.
Proof.
  unfold Zod.array. destruct v as [[| | | |items|]| |]; try discriminate.
  intros H. apply traverse_Forall2 in H.
  induction H as [|j t items l Hj _ (ss & E & ->)].
  - exists []. split; reflexivity.
  - apply TextSchema_inv in Hj as (s & [= ->] & -> & _).
    exists (s :: ss). injection E as ->. split; reflexivity.
Qed.

Lemma array_enum_inv values l l' :
  Zod.array (Zod.enum values) (Own (JArr (map JStr l))) = Some l' ->
  l' = l /\ Forall (fun e => In e values) l.
Proof.
  simpl. revert l'. induction l as [|s rest IH]; simpl; intros l'.
  - intros [= <-]. split; constructor.
  - unfold Zod.enum at 1, Zod.string.
    destruct (includes s values) eqn:Ei; [|discriminate].
    destruct (traverse _ _) as [bs|] eqn:Et; [|discriminate].
    intros [= <-]. destruct (IH bs eq_refl) as [-> HF].
    split; [reflexivity|]. constructor; [now apply includes_In|exact HF].
Qed.

Lemma array_enum_complete values l :
  Forall (fun e => In e values) l ->
  Zod.array (Zod.enum values) (Own (JArr (map JStr l))) = Some l.
Proof.
  simpl. induction 1 as [|s rest Hs _ IH]; simpl; [reflexivity|].
  unfold Zod.enum at 1, Zod.string.
  apply includes_In in Hs. rewrite Hs, IH. reflexivity.
Qed.

(** ** [z.record] *)

Lemma fold_option_None {A B} (step : option A -> B -> option A) (l : list B) :
  (forall b, step None b = None) -> fold_left step l None = None.
Proof. intros H. induction l as [|b rest IH]; simpl; [|rewrite H]; auto. Qed.

Lemma record_NoDup {A} (key : Zod.schema string) (value : Zod.schema A) v out :
  Zod.record key value v = Some out -> NoDup (keys out).
Proof.
  unfold Zod.record. destruct v as [[| | | | |data]| |]; try discriminate.
  assert (G : forall acc,
             NoDup (keys acc) ->
             fold_left
               (fun acc '(k, j) =>
                  out <- acc ;; k' <- key (Own (JStr k)) ;;
                  a <- value (Own j) ;;
                  Some (if String.eqb k' "__proto__" then out
                        else setProp k' a out))
               data (Some acc) = Some out ->
             NoDup (keys out)).
  { induction data as [|[k j] rest IH]; simpl; intros acc Hnd.
    - now intros [= <-].
    - destruct (key (Own (JStr k))) as [k'|];
        [|rewrite fold_option_None; [discriminate | now intros [? ?]]].
      destruct (value (Own j)) as [a|];
        [|rewrite fold_option_None; [discriminate | now intros [? ?]]].
      apply IH. destruct (String.eqb k' "__proto__"); [exact Hnd|].
      now apply NoDup_keys_setProp. }
  apply G. constructor.
Qed.

Lemma record_TextSchema_keys {A} (value : Zod.schema A) data out :
  Zod.record TextSchema value (Own (JObj data)) = Some out ->
  forall k, In k (keys out) -> In k (map Text.trim (keys data)).
Proof.
  unfold Zod.record.
  assert (G : forall acc,
             fold_left
               (fun acc '(k, j) =>
                  out <- acc ;; k' <- TextSchema (Own (JStr k)) ;;
                  a <- value (Own j) ;;
                  Some (if String.eqb k' "__proto__" then out
                        else setProp k' a out))
               data (Some acc) = Some out ->
             forall k, In k (keys out) ->
                       In k (keys acc) \/ In k (map Text.trim (keys data))).
  { induction data as [|[k0 j] rest IH]; simpl; intros acc.
    - intros [= <-]. tauto.
    - destruct (TextSchema (Own (JStr k0))) as [k'|] eqn:Ek;
        [|rewrite fold_option_None; [discriminate | now intros [? ?]]].
      destruct (value (Own j)) as [a|];
        [|rewrite fold_option_None; [discriminate | now intros [? ?]]].
      apply TextSchema_inv in Ek as (s0 & [= <-] & -> & _).
      intros H k Hk. apply IH with (k := k) in H; [|exact Hk].
      destruct H as [H|H]; [|tauto].
      destruct (String.eqb (Text.trim k0) "__proto__"); [tauto|].
      apply In_keys_setProp in H as [->|H]; tauto. }
  intros H k Hk. destruct (G [] H k Hk) as [[]|Hin]. exact Hin.
Qed.

(** ** The loop of [transform] *)

Lemma complete_spec ks shape0 order0 :
  NoDup ks ->
  (forall k, In k ks -> ~ In k (keys shape0)) ->
  NoDup (keys shape0) ->
  let '(shape, order) := complete ks (shape0, order0) in
  order = order0 ++ filter (fun k => negb (includes k order0)) ks
  /\ NoDup (keys shape)
  /\ (forall k, In k (keys shape) <-> In k (keys shape0) \/ In k ks)
  /\ (forall k, In k ks -> getOwn k shape = Some scopeSchema)
  /\ (forall k, ~ In k ks -> getOwn k shape = getOwn k shape0).
Proof.
  unfold complete. revert shape0 order0.
  induction ks as [|key rest IH]; simpl; intros shape0 order0 Hnd Hfresh Hs.
  - rewrite app_nil_r. repeat split; auto; tauto.
  - inversion Hnd as [|? ? Hni Hnd']; subst.
    specialize (IH (setProp key scopeSchema shape0)
                   (if negb (includes key order0) then order0 ++ [key]
                    else order0) Hnd').
    destruct (fold_left _ rest _) as [shape order].
    destruct IH as (Ho & Hn & Hk & Hg & Hg').
    { intros k Hin Hk. apply In_keys_setProp in Hk as [->|Hk]; [tauto|].
      apply (Hfresh k); [now right | exact Hk]. }
    { now apply NoDup_keys_setProp. }
    split; [|split; [exact Hn|split; [|split]]].
    + rewrite Ho. destruct (includes key order0) eqn:Ei; simpl.
      * reflexivity.
      * rewrite <- app_assoc. simpl. f_equal. f_equal.
        apply filter_ext_in. intros k Hin. f_equal.
        unfold includes. rewrite existsb_app. simpl.
        destruct (String.eqb_spec k key) as [->|]; [tauto|].
        now rewrite !orb_false_r.
    + intros k. rewrite Hk, In_keys_setProp. intuition (subst; auto).
    + intros k [<-|Hin]; [|now apply Hg].
      rewrite Hg' by exact Hni. apply getOwn_setProp_same.
    + intros k Hk'. rewrite Hg' by tauto.
      apply getOwn_setProp_other. intros ->. tauto.
Qed.

(** ** [z.object] on a shape *)

Lemma object_spec {A} (shape : object (Zod.schema A)) v out :
  NoDup (keys shape) ->
  Zod.object shape v = Some out ->
  exists data,
    v = Own (JObj data)
    /\ (forall k, In k (keys out) <-> In k (keys shape))
    /\ (forall k s, getOwn k shape = Some s ->
                    exists a, s (getProp k data) = Some a
                              /\ getOwn k out = Some a).
Proof.
  unfold Zod.object. destruct v as [[| | | | |data]| |]; try discriminate.
  intros Hnd H. exists data. split; [reflexivity|].
  assert (G : forall acc,
             (forall k, In k (keys shape) -> ~ In k (keys acc)) ->
             fold_left
               (fun acc '(k, s) =>
                  out <- acc ;; a <- s (getProp k data) ;;
                  Some (setProp k a out))
               shape (Some acc) = Some out ->
             (forall k, In k (keys out) <-> In k (keys acc) \/ In k (keys shape))
             /\ (forall k s, getOwn k shape = Some s ->
                     exists a, s (getProp k data) = Some a
                               /\ getOwn k out = Some a)
             /\ (forall k, ~ In k (keys shape) -> getOwn k out = getOwn k acc)).
  { clear H. induction shape as [|[k0 s0] rest IH]; simpl; intros acc Hfresh.
    - intros [= <-]. repeat split; try tauto; discriminate.
    - inversion Hnd as [|? ? Hni Hnd']; subst.
      destruct (s0 (getProp k0 data)) as [a0|] eqn:E0;
        [|rewrite fold_option_None; [discriminate | now intros [? ?]]].
      intros H. apply IH in H as (Hk & Hg & Hg'); [|exact Hnd'|].
      + split; [|split].
        * intros k. rewrite Hk, In_keys_setProp. intuition (subst; auto).
        * intros k s. destruct (String.eqb_spec k0 k) as [->|Hne].
          -- intros [= <-]. exists a0. split; [exact E0|].
             rewrite Hg' by exact Hni. apply getOwn_setProp_same.
          -- apply Hg.
        * intros k Hk'. rewrite Hg' by tauto.
          apply getOwn_setProp_other. intros ->. apply Hk'. now left.
      + intros k Hin Hk. apply In_keys_setProp in Hk as [->|Hk]; [tauto|].
        apply (Hfresh k); [now right|exact Hk]. }
  apply G in H as (Hk & Hg & _); [|intros k _ []].
  split; [|exact Hg]. intros k. rewrite Hk. simpl. tauto.
Qed.

End SchemaFacts.

(* ================================================================== *)
(** * Properties of the resolver *)

Section TransformFacts.
Import JS.

Lemma flat_map_JStr ss :
  flat_map (fun j => match j with JStr s => [Text.trim s] | _ => [] end)
           (map JStr ss) = map Text.trim ss.
Proof. induction ss as [|s rest IH]; simpl; congruence. Qed.

(** What [transform] returns. *)
Lemma transform_spec value p :
  NoDup (keys (Parsed.types value)) ->
  transform value = Some p ->
  let ks := keys (Parsed.types value) in
  ConfigurationProperties.types p = Parsed.types value
  /\ ConfigurationProperties.aliases p = Parsed.aliases value
  /\ ConfigurationProperties.fallback p = Parsed.fallback value
  /\ ConfigurationProperties.order p
     = Parsed.order value ++ missingKeys (Parsed.order value) ks
  /\ Forall (fun e => In e ks) (ConfigurationProperties.order p)
  /\ exists data,
       Parsed.scopes value = Own (JObj data)
       /\ (forall k, In k (keys (ConfigurationProperties.scopes p)) <-> In k ks)
       /\ (forall k, In k ks ->
             exists a, scopeSchema (getProp k data) = Some a
                       /\ getOwn k (ConfigurationProperties.scopes p) = Some a).
Proof.
  intros Hnd. unfold transform.
  pose proof (complete_spec (keys (Parsed.types value)) [] (Parsed.order value)
                Hnd (fun _ _ H => H) (NoDup_nil _)) as Hc.
  destruct (complete _ _) as [shape order].
  destruct Hc as (Ho & Hn & Hk & Hg & _).
  destruct (Zod.object shape (Parsed.scopes value)) as [scopes|] eqn:Es;
    [|discriminate].
  destruct (Zod.array _ _) as [order'|] eqn:Eo; [|discriminate].
  intros [= <-]. simpl.
  apply array_enum_inv in Eo as [-> HF].
  apply object_spec in Es as (data & Ed & Hks & Hgs); [|exact Hn].
  repeat split; try reflexivity.
  - exact Ho.
  - eapply Forall_impl; [|exact HF]. intros e He. apply Hk in He. simpl in He. tauto.
  - exists data. split; [exact Ed|]. split.
    + intros k. rewrite Hks, Hk. simpl. tauto.
    + intros k Hin. apply (Hgs k scopeSchema). now apply Hg.
Qed.

Lemma keys_assignIndex order (types : object CommitType.t) :
  keys (map (fun '(key, commitType) => (key, assignIndex order commitType)) types)
  = keys types.
Proof.
  unfold keys. rewrite map_map. apply map_ext. now intros [k c].
Qed.

Lemma getOwn_assignIndex order (types : object CommitType.t) k :
  getOwn k (map (fun '(key, commitType) => (key, assignIndex order commitType))
                types)
  = option_map (assignIndex order) (getOwn k types).
Proof.
  induction types as [|[k' c] rest IH]; simpl; [reflexivity|].
  destruct (String.eqb k' k); [reflexivity|exact IH].
Qed.

End TransformFacts.

Section ResolverFacts.
Import JS.
Variable EMOJI_CHAR_REGEX_GLOBAL : string -> bool.
Let em := EMOJI_CHAR_REGEX_GLOBAL.

(** What the object stage keeps of a document. *)
Lemma ConfigurationObject_inv raw value :
  ConfigurationObject em (Own raw) = Some value ->
  exists doc,
    raw = JObj doc
    /\ NoDup (keys (Parsed.types value))
    /\ Parsed.order value = suppliedOrder raw
    /\ Parsed.scopes value = getProp "scopes" doc
    /\ (forall j, getOwn "order" doc = Some j ->
                  exists ss, j = JArr (map JStr ss))
    /\ (forall k, In k (keys (Parsed.types value)) ->
                  In k (suppliedTypeKeys raw)).
Proof.
  unfold ConfigurationObject. destruct raw as [| | | | |doc]; try discriminate.
  destruct (Zod.record TextSchema (CommitTypeSchema em) _) as [types|] eqn:Et;
    [|discriminate].
  destruct (Zod.record TextSchema (CommitAliasSchema em) _) as [aliases|];
    [|discriminate].
  destruct (TextSchema (getProp "fallback" doc)) as [fallback|]; [|discriminate].
  destruct (Zod.default _ _ _) as [order|] eqn:Eo; [|discriminate].
  intros [= <-]. exists doc. simpl.
  split; [reflexivity|]. split; [eapply record_NoDup; eassumption|].
  assert (Hk : forall k, In k (keys types) ->
                         In k (match getOwn "types" doc with
                               | Some (JObj types) => map Text.trim (keys types)
                               | _ => []
                               end)).
  { unfold getProp in Et. change (inherited "types") with false in Et.
    destruct (getOwn "types" doc) as [[| | | | |ts]|]; try discriminate.
    now apply record_TextSchema_keys with (value := CommitTypeSchema em). }
  unfold Zod.default, getProp in Eo. change (inherited "order") with false in Eo.
  destruct (getOwn "order" doc) as [j|] eqn:Ej.
  - apply array_TextSchema_inv in Eo as (ss & [= ->] & ->).
    rewrite flat_map_JStr. repeat split; try reflexivity; [|exact Hk].
    intros j [= <-]. now exists ss.
  - injection Eo as <-. repeat split; try reflexivity; [discriminate|exact Hk].
Qed.

(** The stages a successful construction went through. *)
Lemma constructor_inv raw this :
  constructor em raw = Ok this ->
  exists value p,
    ConfigurationObject em (Own raw) = Some value
    /\ fallbackInTypes value = true
    /\ transform value = Some p
    /\ Configuration.types this
       = map (fun '(key, commitType) =>
                (key, assignIndex (ConfigurationProperties.order p) commitType))
             (ConfigurationProperties.types p)
    /\ Configuration.aliases this = ConfigurationProperties.aliases p
    /\ Configuration.fallback this = ConfigurationProperties.fallback p
    /\ Configuration.scopes this = ConfigurationProperties.scopes p
    /\ Configuration.order this = ConfigurationProperties.order p.
Proof.
  unfold constructor, ConfigurationSchema.
  destruct (ConfigurationObject em (Own raw)) as [value|] eqn:Ev; [|discriminate].
  destruct (fallbackInTypes value) eqn:Ef; [|discriminate].
  destruct (transform value) as [p|] eqn:Et; [|discriminate].
  intros [= <-]. exists value, p. simpl. repeat split; auto.
Qed.

Lemma rejected raw :
  ConfigurationSchema em (Own raw) = None ->
  constructor em raw = Throw ZodError.
Proof. unfold constructor. now intros ->. Qed.

(** A resolved configuration is the construction of some document. *)
Lemma resolved_constructor this :
  resolved em this -> exists raw, constructor em raw = Ok this.
Proof.
  intros [(raw & H)|(d & c & H)]; [now exists raw|].
  unfold fromFiles in H. eauto.
Qed.

(** The final [order] and the keys of [types], from the document. *)
Lemma constructor_order raw this :
  constructor em raw = Ok this ->
  let ks := keys (Configuration.types this) in
  NoDup ks
  /\ Configuration.order this
     = suppliedOrder raw ++ missingKeys (suppliedOrder raw) ks
  /\ Forall (fun e => In e ks) (Configuration.order this).
Proof.
  intros H. apply constructor_inv in H
    as (value & p & Hv & _ & Ht & Hty & _ & _ & _ & Ho).
  apply ConfigurationObject_inv in Hv as (doc & -> & Hnd & Hs & _).
  apply transform_spec in Ht as (Hty' & _ & _ & Ho' & HF & _); [|exact Hnd].
  simpl. rewrite Hty, keys_assignIndex, Hty', Ho, Ho', Hs.
  repeat split; auto. rewrite <- Hs, <- Ho'. exact HF.
Qed.

End ResolverFacts.

(* ================================================================== *)
(** * The final order and the indices *)

Section OrderTheorems.
Import JS.
Variable EMOJI_CHAR_REGEX_GLOBAL : string -> bool.
Let em := EMOJI_CHAR_REGEX_GLOBAL.

Lemma missingKeys_In order ks k :
  In k (missingKeys order ks) <-> In k ks /\ ~ In k order.
Proof.
  unfold missingKeys. rewrite filter_In, negb_true_iff, includes_false. tauto.
Qed.

Lemma order_covers order ks k :
  In k ks -> In k (order ++ missingKeys order ks).
Proof.
  intros Hin. apply in_or_app.
  destruct (in_dec string_dec k order) as [Ho|Ho]; [now left|right].
  now apply missingKeys_In.
Qed.

Lemma indexOf_nth l n x :
  NoDup l -> nth_error l n = Some x -> indexOf x l = Z.of_nat n.
Proof.
  intros Hnd Hn.
  destruct (indexOf_present x l (nth_error_In _ _ Hn)) as (m & -> & Hm & Hlt).
  f_equal. rewrite NoDup_nth_error in Hnd. apply Hnd; [exact Hlt|congruence].
Qed.

(** C4 (amended).  The final [order] of a constructed configuration is
    the supplied order (entries trimmed) followed by the keys of [types]
    it lacks, in the order [types] enumerates them.  It holds every key
    of [types] at least once; a key occurs
    as often as in the supplied order, and once when the supplied order
    lacks it; so [order] holds every key exactly once when the supplied
    order has no repeated entry, and repeats what the supplied order
    repeats otherwise. *)
Theorem order_covers_types raw this :
  constructor em raw = Ok this ->
  let ks := keys (Configuration.types this) in
  Configuration.order this
  = suppliedOrder raw ++ missingKeys (suppliedOrder raw) ks
  /\ (forall k, In k ks -> In k (Configuration.order this))
  /\ (forall k, In k ks ->
        count_occ string_dec (Configuration.order this) k
        = Nat.max 1 (count_occ string_dec (suppliedOrder raw) k))
  /\ (NoDup (suppliedOrder raw) ->
        NoDup (Configuration.order this)
        /\ Permutation (Configuration.order this) ks).
Proof.
  intros H ks. apply constructor_order in H as (Hnd & Ho & HF).
  cbv zeta in *. fold ks in Hnd, Ho, HF. rewrite Forall_forall in HF.
  set (s := suppliedOrder raw) in *.
  assert (Hcov : forall k, In k ks -> In k (Configuration.order this)).
  { intros k Hin. rewrite Ho. now apply order_covers. }
  split; [exact Ho|]. split; [exact Hcov|]. split.
  - intros k Hin. rewrite Ho, count_occ_app.
    destruct (in_dec string_dec k s) as [Hs|Hs].
    + assert (Hm : ~ In k (missingKeys s ks)) by (rewrite missingKeys_In; tauto).
      apply (count_occ_not_In string_dec) in Hm. rewrite Hm.
      apply (count_occ_In string_dec) in Hs. lia.
    + unfold missingKeys. rewrite count_occ_filter_new by assumption.
      apply (count_occ_not_In string_dec) in Hs. rewrite Hs. reflexivity.
  - intros Hs.
    assert (Hn : NoDup (Configuration.order this)).
    { rewrite Ho. apply NoDup_app; [exact Hs | now apply NoDup_filter |].
      intros k Hk Hm. apply missingKeys_In in Hm. tauto. }
    split; [exact Hn|].
    apply NoDup_Permutation; [exact Hn | exact Hnd |].
    intros k. split; [apply HF | apply Hcov].
Qed.

(** C1 (amended).  In a configuration a loader returned, the [index] of
    every record of [types] is [order.indexOf(type)] for the record's own
    [type] value, which is -1 when [order] lacks that value.  When every
    record's [type] is the key it is stored under and [order] has no
    repeated entry, the index of a key is its position in [order], lies
    in [0, count), differs from the index of every other key, and every
    number of [0, count) is the index of some key. *)
Theorem index_assignment this :
  resolved em this ->
  (forall key t,
      getOwn key (Configuration.types this) = Some t ->
      IndexedType.index t
      = indexOf (IndexedType.type t) (Configuration.order this))
  /\ ((forall key t,
          getOwn key (Configuration.types this) = Some t ->
          IndexedType.type t = key) ->
      NoDup (Configuration.order this) ->
      let count := Z.of_nat (List.length (Configuration.types this)) in
      (forall key t,
          getOwn key (Configuration.types this) = Some t ->
          (0 <= IndexedType.index t < count)%Z
          /\ nth_error (Configuration.order this)
                       (Z.to_nat (IndexedType.index t)) = Some key)
      /\ (forall k1 k2 t1 t2,
             getOwn k1 (Configuration.types this) = Some t1 ->
             getOwn k2 (Configuration.types this) = Some t2 ->
             IndexedType.index t1 = IndexedType.index t2 -> k1 = k2)
      /\ (forall i, (0 <= i < count)%Z ->
             exists key t,
               getOwn key (Configuration.types this) = Some t
               /\ IndexedType.index t = i)).
Proof.
  intros Hr. apply resolved_constructor in Hr as (raw & H).
  pose proof (constructor_order _ _ _ H) as (Hnd & Ho & HF).
  assert (Hcov : forall k, In k (keys (Configuration.types this)) ->
                           In k (Configuration.order this)).
  { intros k Hin. cbv zeta in Ho. rewrite Ho. now apply order_covers. }
  apply constructor_inv in H as (value & p & _ & _ & _ & Hty & _ & _ & _ & Hord).
  simpl in *. rewrite Forall_forall in HF.
  assert (Hidx : forall key t,
             getOwn key (Configuration.types this) = Some t ->
             IndexedType.index t
             = indexOf (IndexedType.type t) (Configuration.order this)).
  { intros key t Hg. rewrite Hty, getOwn_assignIndex in Hg.
    destruct (getOwn key (ConfigurationProperties.types p)) as [c|];
      [|discriminate].
    injection Hg as <-. rewrite Hord. reflexivity. }
  split; [exact Hidx|]. intros Hkey Hn.
  assert (Hlen : List.length (Configuration.order this)
                 = List.length (Configuration.types this)).
  { erewrite Permutation_length
      by (apply NoDup_Permutation; [exact Hn | exact Hnd |];
          intros k; split; [apply HF | apply Hcov]).
    apply length_map. }
  assert (Hpos : forall key t,
             getOwn key (Configuration.types this) = Some t ->
             exists n, IndexedType.index t = Z.of_nat n
                       /\ nth_error (Configuration.order this) n = Some key
                       /\ (n < List.length (Configuration.types this))%nat).
  { intros key t Hg. rewrite (Hidx key t Hg), (Hkey key t Hg).
    destruct (indexOf_present key (Configuration.order this))
      as (n & Hi & Hnth & Hlt).
    { apply Hcov. eapply getOwn_In_keys; eassumption. }
    exists n. rewrite <- Hlen. auto. }
  split; [|split].
  - intros key t Hg. destruct (Hpos key t Hg) as (n & -> & Hnth & Hlt).
    rewrite Nat2Z.id. split; [lia|exact Hnth].
  - intros k1 k2 t1 t2 H1 H2 E.
    destruct (Hpos k1 t1 H1) as (n1 & E1 & Hn1 & _).
    destruct (Hpos k2 t2 H2) as (n2 & E2 & Hn2 & _).
    assert (n1 = n2) by lia. subst. congruence.
  - intros i Hi.
    destruct (nth_error (Configuration.order this) (Z.to_nat i)) as [key|] eqn:En.
    + assert (Hin : In key (keys (Configuration.types this)))
        by (apply HF; eapply nth_error_In; eassumption).
      apply In_keys_getOwn in Hin as (t & Hg).
      exists key, t. split; [exact Hg|].
      rewrite (Hidx key t Hg), (Hkey key t Hg).
      rewrite (indexOf_nth _ _ _ Hn En). lia.
    + apply nth_error_None in En. lia.
Qed.

(** C10 (amended).  When the supplied order holds an entry that, trimmed
    as the schema trims it, is not a key of the supplied [types], their
    keys trimmed likewise, the construction throws a [ZodError]; so it
    does when the entry is not a key of the validated [types]; and in
    every constructed configuration each entry of [order] is a key of
    [types]. *)
Theorem order_entries_are_types raw :
  ((exists e, In e (suppliedOrder raw) /\ ~ In e (suppliedTypeKeys raw)) ->
   constructor em raw = Throw ZodError)
  /\ (forall value,
         ConfigurationObject em (Own raw) = Some value ->
         (exists e, In e (suppliedOrder raw)
                    /\ ~ In e (keys (Parsed.types value))) ->
         constructor em raw = Throw ZodError)
  /\ (forall this,
         constructor em raw = Ok this ->
         Forall (fun e => In e (keys (Configuration.types this)))
                (Configuration.order this)).
Proof.
  assert (Hthrow : forall r, (forall this, constructor em r <> Ok this) ->
                             constructor em r = Throw ZodError).
  { intros r H. unfold constructor in *.
    destruct (ConfigurationSchema em (Own r)) as [p|]; [|reflexivity].
    now edestruct H. }
  assert (Hvalue : forall value,
             ConfigurationObject em (Own raw) = Some value ->
             (exists e, In e (suppliedOrder raw)
                        /\ ~ In e (keys (Parsed.types value))) ->
             constructor em raw = Throw ZodError).
  { intros value Hv (e & He & Hne). apply Hthrow. intros this Hc.
    pose proof (constructor_order _ _ _ Hc) as (_ & Ho & HF).
    apply constructor_inv in Hc
      as (value' & p & Hv' & _ & Ht & Hty & _ & _ & _ & _).
    rewrite Hv in Hv'. injection Hv' as <-.
    apply ConfigurationObject_inv in Hv as (doc & _ & Hnd & _).
    apply transform_spec in Ht as (Hty' & _); [|exact Hnd].
    simpl in *. rewrite Forall_forall in HF.
    apply Hne.
    rewrite <- Hty', <- (keys_assignIndex (ConfigurationProperties.order p)),
      <- Hty.
    apply HF. rewrite Ho. apply in_or_app. now left. }
  split; [|split; [exact Hvalue|]].
  - intros (e & He & Hne).
    destruct (ConfigurationObject em (Own raw)) as [value|] eqn:Hv.
    + apply (Hvalue value eq_refl). exists e. split; [exact He|].
      intros Hin. apply Hne.
      apply ConfigurationObject_inv in Hv as (doc & _ & _ & _ & _ & _ & Htk).
      now apply Htk.
    + apply rejected. unfold ConfigurationSchema. now rewrite Hv.
  - intros this Hc. now apply constructor_order in Hc as (_ & _ & HF).
Qed.

End OrderTheorems.

(* ================================================================== *)
(** * The scopes *)

Section ScopeTheorems.
Import JS.
Variable EMOJI_CHAR_REGEX_GLOBAL : string -> bool.
Let em := EMOJI_CHAR_REGEX_GLOBAL.

Lemma getProp_Own {V} k (o : object V) v :
  getProp k o = Own v <-> getOwn k o = Some v.
Proof.
  unfold getProp. destruct (getOwn k o) as [v'|].
  - split; intros [= ->]; reflexivity.
  - destruct (inherited k); split; discriminate.
Qed.

(** C5 (amended).  The [scopes] of a constructed configuration has the
    keys of [types] and no other: a key of the document's [scopes] that
    is not a type, an alias among them, is dropped.  A type that the
    document's [scopes] does not list gets the empty sequence, and a
    listed type keeps its entries, each trimmed. *)
Theorem scopes_of_types raw this :
  constructor em raw = Ok this ->
  exists doc rawScopes,
    raw = JObj doc
    /\ getOwn "scopes" doc = Some (JObj rawScopes)
    /\ (forall k, In k (keys (Configuration.scopes this))
                  <-> In k (keys (Configuration.types this)))
    /\ (forall k,
          In k (keys (Configuration.types this)) ->
          (getOwn k rawScopes = None ->
           getOwn k (Configuration.scopes this) = Some [])
          /\ (forall j,
                getOwn k rawScopes = Some j ->
                exists ss,
                  j = JArr (map JStr ss)
                  /\ getOwn k (Configuration.scopes this)
                     = Some (map Text.trim ss))).
Proof.
  intros H. apply constructor_inv in H
    as (value & p & Hv & _ & Ht & Hty & _ & _ & Hsc & _).
  apply ConfigurationObject_inv in Hv as (doc & -> & Hnd & _ & Hs & _).
  apply transform_spec in Ht
    as (Hty' & _ & _ & _ & _ & data & Hd & Hks & Hg); [|exact Hnd].
  simpl in Hks, Hg.
  rewrite Hs in Hd. apply getProp_Own in Hd.
  exists doc, data. split; [reflexivity|]. split; [exact Hd|].
  rewrite Hsc, Hty, keys_assignIndex, Hty'.
  split; [exact Hks|]. intros k Hin.
  destruct (Hg k Hin) as (a & Ha & Hga). rewrite Hga.
  unfold scopeSchema, Zod.default, getProp in Ha.
  destruct (getOwn k data) as [j|].
  - split; [discriminate|]. intros j' [= <-].
    apply array_TextSchema_inv in Ha as (ss & [= ->] & ->). now exists ss.
  - split; [|discriminate]. intros _.
    destruct (inherited k); [discriminate|congruence].
Qed.

End ScopeTheorems.

(* ================================================================== *)
(** * The layered load *)

Section MergeFacts.
Import JS DeepMerge.

Lemma mergeOwn_lookup options other props result k :
  NoDup (keys props) ->
  getOwn k (mergeOwn (mergeObjects options) other props result)
  = match (if String.eqb k "__proto__" then None else getOwn k props) with
    | Some a => Some (mergedValue options k a other)
    | None => getOwn k result
    end.
Proof.
  revert result. induction props as [|[key a] rest IH]; simpl; intros result Hnd.
  - now destruct (String.eqb k "__proto__").
  - inversion Hnd as [|? ? Hni Hnd']; subst. rewrite IH by exact Hnd'.
    destruct (String.eqb k "__proto__") eqn:Ep.
    + apply String.eqb_eq in Ep.
      destruct (String.eqb_spec key "__proto__") as [Hk|Hk]; [reflexivity|].
      destruct (getOwn key other) as [b|];
        [destruct (isNonNullObject a && isNonNullObject b)|];
        apply getOwn_setProp_other; congruence.
    + destruct (String.eqb_spec key k) as [->|Hne].
      * apply getOwn_None_keys in Hni. rewrite Hni, Ep.
        unfold mergedValue. destruct (getOwn k other) as [b|];
          [destruct (isNonNullObject a && isNonNullObject b)|];
          apply getOwn_setProp_same.
      * destruct (getOwn k rest); [reflexivity|].
        destruct (String.eqb key "__proto__"); [reflexivity|].
        destruct (getOwn key other) as [b|];
          [destruct (isNonNullObject a && isNonNullObject b)|];
          apply getOwn_setProp_other; congruence.
Qed.

Lemma mergeNew_lookup record other result k :
  NoDup (keys other) ->
  getOwn k (mergeNew record other result)
  = match (if hasOwn k record || String.eqb k "__proto__" then None
           else getOwn k other) with
    | Some b => Some b
    | None => getOwn k result
    end.
Proof.
  unfold mergeNew. revert result.
  induction other as [|[key b] rest IH]; simpl; intros result Hnd.
  - now destruct (hasOwn k record || String.eqb k "__proto__").
  - inversion Hnd as [|? ? Hni Hnd']; subst. rewrite IH by exact Hnd'.
    destruct (String.eqb_spec key k) as [->|Hne].
    + apply getOwn_None_keys in Hni. rewrite Hni.
      destruct (hasOwn k record || String.eqb k "__proto__"); [reflexivity|].
      apply getOwn_setProp_same.
    + destruct (if hasOwn k record || String.eqb k "__proto__" then None
                else getOwn k rest); [reflexivity|].
      destruct (hasOwn key record || String.eqb key "__proto__"); [reflexivity|].
      apply getOwn_setProp_other. congruence.
Qed.

Lemma deepMergeInternal_lookup options record other k :
  NoDup (keys record) -> NoDup (keys other) -> k <> "__proto__" ->
  getOwn k (deepMergeInternal options record other)
  = match getOwn k record with
    | Some a => Some (mergedValue options k a other)
    | None => getOwn k other
    end.
Proof.
  intros Hr Ho Hk. unfold deepMergeInternal.
  rewrite mergeNew_lookup, mergeOwn_lookup by assumption.
  apply String.eqb_neq in Hk. rewrite Hk, orb_false_r. unfold hasOwn.
  destruct (getOwn k record) as [a|]; [reflexivity|].
  now destruct (getOwn k other).
Qed.

(** With the strategy ["replace"], which [fromFiles] does not ask for,
    two arrays merge to the second one. *)
Lemma replace_keeps_second_array l r :
  mergeObjects {| arrays := replace |} (JArr l) (JArr r) = JArr r.
Proof. reflexivity. Qed.

Lemma merged_lookup rawDefaults rawCustom k :
  k <> "order" ->
  getOwn k (merged rawDefaults rawCustom)
  = getOwn k (deepMerge rawDefaults rawCustom None).
Proof.
  intros Hk. unfold merged. destruct (hasProperty "order" rawCustom); [|reflexivity].
  destruct (getProp "order" rawCustom); try reflexivity.
  now apply getOwn_setProp_other.
Qed.

Lemma merged_order rawDefaults rawCustom j :
  getOwn "order" rawCustom = Some j ->
  getOwn "order" (merged rawDefaults rawCustom) = Some j.
Proof.
  intros Hj. unfold merged, hasProperty, hasOwn, getProp. rewrite Hj. simpl.
  apply getOwn_setProp_same.
Qed.

End MergeFacts.

Section MergeTheorems.
Import JS DeepMerge.
Variable EMOJI_CHAR_REGEX_GLOBAL : string -> bool.
Let em := EMOJI_CHAR_REGEX_GLOBAL.

(** C3 (amended).  A layered load constructs the merged document.  Under
    every key other than [order] (and [__proto__], which the merge
    skips), the merged document holds: the value of the defaults when
    the custom document lacks the key; the deep merge of the two values
    when both are objects; the array of the defaults followed by the
    array of the custom document when both are arrays, a concatenation;
    and the value of the custom document in every other case. *)
Theorem deep_merge_of_documents rawDefaults rawCustom key :
  NoDup (keys rawDefaults) -> NoDup (keys rawCustom) ->
  key <> "order" -> key <> "__proto__" ->
  fromFiles em rawDefaults rawCustom
  = constructor em (JObj (merged rawDefaults rawCustom))
  /\ getOwn key (merged rawDefaults rawCustom)
     = match getOwn key rawDefaults, getOwn key rawCustom with
       | Some (JObj record), Some (JObj other) =>
           Some (JObj (deepMerge record other None))
       | Some (JArr l), Some (JArr r) => Some (JArr (l ++ r))
       | Some a, None => Some a
       | _, b => b
       end.
Proof.
  intros Hd Hc Ho Hp. split; [reflexivity|].
  rewrite merged_lookup by assumption. unfold deepMerge.
  rewrite deepMergeInternal_lookup by assumption.
  unfold mergedValue.
  destruct (getOwn key rawDefaults) as [a|]; [|reflexivity].
  destruct (getOwn key rawCustom) as [b|]; [|now destruct a].
  destruct a, b; reflexivity.
Qed.

(** C2 (amended).  When the custom document has an [order], a layered
    load that succeeds found there an array of strings, and the [order]
    of the configuration is that array, each entry trimmed, followed by
    the keys of [types] the trimmed array lacks; the [order] of the
    defaults has no part in it. *)
Theorem custom_order_replaces rawDefaults rawCustom j this :
  getOwn "order" rawCustom = Some j ->
  fromFiles em rawDefaults rawCustom = Ok this ->
  exists ss,
    j = JArr (map JStr ss)
    /\ Configuration.order this
       = map Text.trim ss
         ++ missingKeys (map Text.trim ss) (keys (Configuration.types this)).
Proof.
  intros Hj H. unfold fromFiles in H.
  pose proof (merged_order rawDefaults rawCustom j Hj) as Hm.
  pose proof (constructor_order _ _ _ H) as (_ & Ho & _).
  apply constructor_inv in H as (value & p & Hv & _).
  apply ConfigurationObject_inv in Hv as (doc & [= <-] & _ & _ & _ & Hss & _).
  destruct (Hss j Hm) as (ss & ->). exists ss. split; [reflexivity|].
  simpl in Ho. unfold suppliedOrder in Ho. rewrite Hm, flat_map_JStr in Ho.
  exact Ho.
Qed.

End MergeTheorems.

(* ================================================================== *)
(** * Validation failures *)

Section ValidationFacts.
Import JS.
Variable EMOJI_CHAR_REGEX_GLOBAL : string -> bool.
Let em := EMOJI_CHAR_REGEX_GLOBAL.

(** A document the schema rejects yields no configuration. *)
Lemma rejected_document_throws raw :
  ConfigurationSchema em (Own raw) = None ->
  constructor em raw = Throw ZodError.
Proof. apply rejected. Qed.

(** A [fallback] that is neither a key of [types] nor a member of
    [Object.prototype] is rejected. *)
Lemma absent_fallback_throws raw value :
  ConfigurationObject em (Own raw) = Some value ->
  hasOwn (Parsed.fallback value) (Parsed.types value) = false ->
  inherited (Parsed.fallback value) = false ->
  constructor em raw = Throw ZodError.
Proof.
  intros Hv Ho Hi. apply rejected_document_throws.
  unfold ConfigurationSchema, fallbackInTypes, hasProperty.
  now rewrite Hv, Ho, Hi.
Qed.

(** The refinement lets a [fallback] through when [Object.prototype] has
    a member of that name. *)
Lemma inherited_fallback_passes value :
  inherited (Parsed.fallback value) = true -> fallbackInTypes value = true.
Proof.
  intros Hi. unfold fallbackInTypes, hasProperty. rewrite Hi.
  apply orb_true_r.
Qed.

End ValidationFacts.

(** C9.  The document [Sample.inheritedFallback] names the fallback
    [toString], which is not a key of its [types]; the constructor
    returns a configuration with that fallback instead of throwing. *)
Theorem inherited_fallback_is_accepted :
  constructor sampleEmoji (JObj Sample.inheritedFallback)
  = Ok Sample.inheritedFallbackConfiguration
  /\ Configuration.fallback Sample.inheritedFallbackConfiguration = "toString"
  /\ JS.getOwn "toString"
       (Configuration.types Sample.inheritedFallbackConfiguration) = None
  /\ JS.getOwn "toString" Sample.types = None.
Proof. repeat split; vm_compute; reflexivity. Qed.

(* ================================================================== *)
(** * Lookups *)

Section LookupFacts.
Import JS.
Variable this : Configuration.t.

Lemma findTypeByName_own name t :
  getOwn name (Configuration.types this) = Some t ->
  findTypeByName this name = Some (Own t).
Proof.
  intros H. unfold findTypeByName, hasProperty, hasOwn, getProp.
  now rewrite H.
Qed.

Lemma findTypeByName_miss name :
  getOwn name (Configuration.types this) = None ->
  inherited name = false ->
  findTypeByName this name = None.
Proof.
  intros H Hi. unfold findTypeByName, hasProperty, hasOwn.
  now rewrite H, Hi.
Qed.

Lemma findTypeByName_inherited name :
  getOwn name (Configuration.types this) = None ->
  inherited name = true ->
  findTypeByName this name = Some (Builtin name).
Proof.
  intros H Hi. unfold findTypeByName, hasProperty, hasOwn, getProp.
  now rewrite H, Hi.
Qed.

Lemma findAliasByName_own name a :
  getOwn name (Configuration.aliases this) = Some a ->
  findAliasByName this name = Some (Own a).
Proof.
  intros H. unfold findAliasByName, hasProperty, hasOwn, getProp.
  now rewrite H.
Qed.

Lemma findAliasByName_miss name :
  getOwn name (Configuration.aliases this) = None ->
  inherited name = false ->
  findAliasByName this name = None.
Proof.
  intros H Hi. unfold findAliasByName, hasProperty, hasOwn.
  now rewrite H, Hi.
Qed.

(** The alias is resolved first, then its [type] is looked up. *)
Lemma findTypeByAliasName_own name a :
  getOwn name (Configuration.aliases this) = Some a ->
  findTypeByAliasName this name = findTypeByName this (CommitAlias.type a).
Proof.
  intros H. unfold findTypeByAliasName. now rewrite (findAliasByName_own _ _ H).
Qed.

Lemma findTypeByAliasName_miss name :
  getOwn name (Configuration.aliases this) = None ->
  inherited name = false ->
  findTypeByAliasName this name = None.
Proof.
  intros H Hi. unfold findTypeByAliasName.
  now rewrite (findAliasByName_miss _ H Hi).
Qed.

Lemma find_code {A} (code : A -> string) (o : object A) emoji :
  match option_map snd
          (find (fun '(_, a) => String.eqb (code a) emoji) o) with
  | Some a => In a (values o) /\ code a = emoji
  | None => forall a, In a (values o) -> code a <> emoji
  end.
Proof.
  induction o as [|[k a] rest IH]; simpl; [tauto|].
  destruct (String.eqb_spec (code a) emoji) as [E|Hne]; simpl.
  - split; [now left|exact E].
  - destruct (option_map snd _) as [a'|].
    + destruct IH. split; [now right|assumption].
    + intros a' [<-|Hin]; [exact Hne|now apply IH].
Qed.

(** The scans return a record with the code, or [null] when no record
    has it. *)
Lemma findTypeByEmojiCode_spec emoji :
  match findTypeByEmojiCode this emoji with
  | Some t =>
      In t (values (Configuration.types this))
      /\ EmojiObject.code (IndexedType.emoji t) = emoji
  | None =>
      forall t, In t (values (Configuration.types this)) ->
                EmojiObject.code (IndexedType.emoji t) <> emoji
  end.
Proof.
  apply (find_code (fun t => EmojiObject.code (IndexedType.emoji t))).
Qed.

Lemma findAliasByEmojiCode_spec emoji :
  match findAliasByEmojiCode this emoji with
  | Some a =>
      In a (values (Configuration.aliases this))
      /\ EmojiObject.code (CommitAlias.emoji a) = emoji
  | None =>
      forall a, In a (values (Configuration.aliases this)) ->
                EmojiObject.code (CommitAlias.emoji a) <> emoji
  end.
Proof.
  apply (find_code (fun a => EmojiObject.code (CommitAlias.emoji a))).
Qed.

End LookupFacts.

(** C8.  On the configuration of [Sample.defaults], which has no type
    and no alias named [toString], [findTypeByName] and
    [findAliasByName] return for that name the member of
    [Object.prototype] instead of [null]. *)
Theorem inherited_name_is_found :
  fromFile sampleEmoji (JObj Sample.defaults) = Ok Sample.configuration
  /\ JS.getOwn "toString" (Configuration.types Sample.configuration) = None
  /\ findTypeByName Sample.configuration "toString"
     = Some (JS.Builtin "toString")
  /\ JS.getOwn "toString" (Configuration.aliases Sample.configuration) = None
  /\ findAliasByName Sample.configuration "toString"
     = Some (JS.Builtin "toString").
Proof. repeat split; vm_compute; reflexivity. Qed.

(* ================================================================== *)
(** * The template engine *)

Section TemplateFacts.
Import JS Template.

Lemma flat_map_ext_In {A B} (f g : A -> list B) l :
  (forall a, In a l -> f a = g a) -> flat_map f l = flat_map g l.
Proof.
  induction l as [|a rest IH]; simpl; intros H; [reflexivity|].
  rewrite H by now left. rewrite IH; [reflexivity|]. intros b Hb. apply H. now right.
Qed.

Lemma verbatim_literal text rest :
  flat_map verbatim (literal text rest) = rev text ++ flat_map verbatim rest.
Proof. destruct text; reflexivity. Qed.

(** Writing the segments back gives the text that was scanned. *)
Lemma scan_verbatim l text name :
  flat_map verbatim (scan l text name)
  = rev text
    ++ match name with Some n => "{"%char :: rev n | None => [] end ++ l.
Proof.
  revert text name. induction l as [|c rest IH]; intros text [n|]; simpl.
  - rewrite verbatim_literal, rev_app_distr. simpl.
    now rewrite <- !app_assoc, app_nil_r.
  - rewrite verbatim_literal. reflexivity.
  - destruct (Ascii.eqb_spec c "}") as [->|Hc].
    + destruct n as [|a n'].
      * rewrite IH. simpl. now rewrite <- !app_assoc.
      * rewrite verbatim_literal. simpl flat_map. rewrite IH. simpl.
        now rewrite <- !app_assoc.
    + destruct (Ascii.eqb_spec c "{") as [->|Hc'].
      * rewrite IH, rev_app_distr. simpl. now rewrite <- !app_assoc.
      * rewrite IH. simpl. now rewrite <- !app_assoc.
  - destruct (Ascii.eqb_spec c "{") as [->|Hc].
    + rewrite IH. reflexivity.
    + rewrite IH. simpl. now rewrite <- app_assoc.
Qed.

Lemma segments_verbatim pattern :
  flat_map verbatim (segments pattern) = list_ascii_of_string pattern.
Proof. unfold segments. now rewrite scan_verbatim. Qed.

Lemma placeholder_In pattern n :
  In (Placeholder n) (segments pattern) ->
  In (string_of_list_ascii n) (placeholders pattern).
Proof.
  intros H. unfold placeholders. apply in_flat_map.
  exists (Placeholder n). split; [exact H|now left].
Qed.

Lemma fill_text lookup pattern :
  list_ascii_of_string (fill lookup pattern)
  = flat_map (substitute lookup) (segments pattern).
Proof. unfold fill. apply list_ascii_of_string_of_list_ascii. Qed.

(** Filling with a lookup that resolves no placeholder of the pattern
    leaves the pattern as it is. *)
Lemma fill_unresolved lookup pattern :
  (forall n, In n (placeholders pattern) -> lookup n = None) ->
  fill lookup pattern = pattern.
Proof.
  intros H. unfold fill.
  rewrite <- (string_of_list_ascii_of_string pattern) at 2.
  f_equal. rewrite <- segments_verbatim.
  apply flat_map_ext_In. intros [text|n] Hin; [reflexivity|].
  simpl. now rewrite (H _ (placeholder_In _ _ Hin)).
Qed.


Lemma stillOpen_true template values n :
  stillOpen template values n = true
  <-> In n (placeholders (source template)) /\ ~ In n (keys values).
Proof.
  unfold stillOpen.
  now rewrite andb_true_iff, includes_In, negb_true_iff, hasOwn_false.
Qed.

Lemma In_literal seg text rest :
  In seg rest -> In seg (literal text rest).
Proof. destruct text; [auto|now right]. Qed.

Lemma In_literal_placeholder p text rest :
  In (Placeholder p) (literal text rest) -> In (Placeholder p) rest.
Proof. destruct text; [auto|]. now intros [[=]|H]. Qed.

(** The names [scan] finds are not empty and hold no brace. *)
Lemma scan_names l text name p :
  (forall n, name = Some n -> braceless n) ->
  In (Placeholder p) (scan l text name) ->
  p <> [] /\ braceless p.
Proof.
  revert text name. induction l as [|c rest IH]; intros text [n|] Hn; simpl.
  - intros H. now apply In_literal_placeholder in H.
  - intros H. now apply In_literal_placeholder in H.
  - destruct (Ascii.eqb_spec c "}") as [->|Hc].
    + destruct n as [|a n'].
      * apply IH. discriminate.
      * intros H. apply In_literal_placeholder in H as [[= <-]|H].
        -- destruct (Hn _ eq_refl) as [H1 H2]. split.
           ++ simpl. now destruct (rev n').
           ++ split; intros Hin; [apply H1|apply H2];
                (apply in_app_or in Hin as [Hin|[E|[]]];
                 [right; now apply in_rev|now left]).
        -- revert H. apply IH. discriminate.
    + destruct (Ascii.eqb_spec c "{") as [->|Hc'].
      * apply IH. intros ? [= <-]. split; intros [].
      * apply IH. intros ? [= <-]. destruct (Hn _ eq_refl) as [H1 H2].
        split; intros [E|Hin]; congruence || tauto.
  - destruct (Ascii.eqb_spec c "{") as [->|Hc].
    + apply IH. intros ? [= <-]. split; intros [].
    + apply IH. discriminate.
Qed.

Lemma scan_name p rest text acc :
  braceless p ->
  scan (p ++ rest) text (Some acc) = scan rest text (Some (rev p ++ acc)).
Proof.
  revert acc. induction p as [|c p' IH]; intros acc [H1 H2]; [reflexivity|].
  simpl.
  destruct (Ascii.eqb_spec c "}") as [->|_]; [exfalso; apply H2; now left|].
  destruct (Ascii.eqb_spec c "{") as [->|_]; [exfalso; apply H1; now left|].
  rewrite IH, <- app_assoc; [reflexivity|].
  split; intros Hin; [apply H1|apply H2]; now right.
Qed.

(** A name in braces is found as a placeholder wherever it stands. *)
Lemma scan_finds pre p post text name :
  p <> [] -> braceless p ->
  In (Placeholder p)
     (scan (pre ++ "{"%char :: p ++ "}"%char :: post) text name).
Proof.
  intros Hp Hb.
  assert (Hopen : forall text',
             In (Placeholder p)
                (scan (p ++ "}"%char :: post) text' (Some []))).
  { intros text'. rewrite scan_name by exact Hb. rewrite app_nil_r. simpl.
    destruct (rev p) eqn:Er.
    - exfalso. apply Hp. apply (f_equal (@rev ascii)) in Er.
      now rewrite rev_involutive in Er.
    - rewrite <- Er, rev_involutive. apply In_literal. now left. }
  revert text name. induction pre as [|c pre' IH]; intros text name.
  - destruct name as [n|]; simpl; apply Hopen.
  - destruct name as [n|]; simpl.
    + destruct (Ascii.eqb c "}").
      * destruct n; [apply IH|]. apply In_literal. right. apply IH.
      * destruct (Ascii.eqb c "{"); apply IH.
    + destruct (Ascii.eqb c "{"); apply IH.
Qed.

(** A placeholder that a call leaves as it stands is a placeholder of
    the pattern the call returns. *)
Lemma fill_keeps_open lookup pattern p :
  In (Placeholder p) (segments pattern) ->
  lookup (string_of_list_ascii p) = None ->
  In (string_of_list_ascii p) (placeholders (fill lookup pattern)).
Proof.
  intros Hin Hl.
  destruct (scan_names _ _ _ _ (fun n (E : None = Some n) =>
              match E with end) Hin) as [Hp Hb].
  apply placeholder_In. unfold segments. rewrite fill_text.
  apply in_split in Hin as (before & after & ->).
  rewrite flat_map_app. simpl. rewrite Hl. simpl. rewrite <- app_assoc.
  simpl. now apply scan_finds.
Qed.

Lemma placeholders_In pattern n :
  In n (placeholders pattern) ->
  exists p, n = string_of_list_ascii p /\ In (Placeholder p) (segments pattern).
Proof.
  unfold placeholders. intros H.
  apply in_flat_map in H as ([text|p] & Hin & Hn); [destruct Hn|].
  destruct Hn as [<-|[]]. now exists p.
Qed.

(** C7 (amended).  The method [partialRender] of an instance constructs
    a new instance and returns it; the instance it is called on, and
    every other one, is left as it is.  The pattern of the new template
    is the pattern of the original with every placeholder that has a
    supplied value replaced by the text of that value and every other
    placeholder left as it stands, braces included, also when a default
    exists for it.  Its defaults are exactly the defaults of the
    original whose placeholder is still open: the pattern has it and
    the values do not supply it; each of them names a placeholder of the
    new pattern.  When the values supply no placeholder of the pattern,
    the pattern is unchanged. *)
Theorem partialRender_resolves_supplied instances this template values :
  nth_error instances this = Some template ->
  exists instances' that result,
    partialRenderOf instances this values = Some (instances', that)
    /\ that <> this
    /\ (forall i other, nth_error instances i = Some other ->
                        nth_error instances' i = Some other)
    /\ nth_error instances' that = Some result
    /\ result = partialRender template values
    /\ list_ascii_of_string (source result)
       = flat_map
           (fun seg =>
              match seg with
              | Literal s => s
              | Placeholder n =>
                  match getOwn (string_of_list_ascii n) values with
                  | Some v => list_ascii_of_string (toText v)
                  | None => "{"%char :: n ++ ["}"%char]
                  end
              end)
           (segments (source template))
    /\ (forall n v,
           In (n, v) (replacements result)
           <-> In (n, v) (replacements template)
               /\ In n (placeholders (source template))
               /\ ~ In n (keys values))
    /\ (forall n v, In (n, v) (replacements result) ->
                    In n (placeholders (source result)))
    /\ ((forall n, In n (placeholders (source template)) ->
                   getOwn n values = None) ->
        source result = source template).
Proof.
  intros Hthis. unfold partialRenderOf, construct. rewrite Hthis.
  assert (Hlt : (this < List.length instances)%nat)
    by (apply nth_error_Some; congruence).
  assert (Hdefaults : forall n v,
             In (n, v) (replacements (partialRender template values))
             <-> In (n, v) (replacements template)
                 /\ In n (placeholders (source template))
                 /\ ~ In n (keys values)).
  { intros n v. simpl. rewrite filter_In, stillOpen_true. tauto. }
  exists (instances ++ [partialRender template values]),
         (List.length instances), (partialRender template values).
  split; [reflexivity|]. split; [lia|]. split.
  { intros i other Hi. rewrite nth_error_app1; [exact Hi|].
    apply nth_error_Some. congruence. }
  split.
  { rewrite nth_error_app2 by lia. now rewrite Nat.sub_diag. }
  split; [reflexivity|]. split.
  { simpl. rewrite fill_text. apply flat_map_ext_In.
    intros [s|n] _; [reflexivity|]. simpl.
    now destruct (getOwn (string_of_list_ascii n) values). }
  split; [exact Hdefaults|]. split.
  { intros n v Hin. apply Hdefaults in Hin as (_ & Hn & Hv).
    apply placeholders_In in Hn as (p & -> & Hp).
    simpl. apply fill_keeps_open; [exact Hp|].
    now apply getOwn_None_keys. }
  intros H. simpl. now apply fill_unresolved.
Qed.

End TemplateFacts.

(* ================================================================== *)
(** * The tests of the repository, on the model *)

Section Tests.
Import JS Template.

Example test_findTypeByName :
  findTypeByName Sample.configuration "feat"
  = option_map Own (getOwn "feat" (Configuration.types Sample.configuration))
  /\ findTypeByName Sample.configuration "uwu" = None.
Proof. split; reflexivity. Qed.

Example test_findTypeByAliasName :
  findTypeByAliasName Sample.configuration "breaking"
  = findTypeByName Sample.configuration "feat"
  /\ findTypeByAliasName Sample.configuration "uwu" = None.
Proof. split; reflexivity. Qed.

Example test_findTypeByEmojiCode :
  option_map IndexedType.type
    (findTypeByEmojiCode Sample.configuration ":sparkles:") = Some "feat"
  /\ findTypeByEmojiCode Sample.configuration ":uwu:" = None.
Proof. split; reflexivity. Qed.

Example test_render_reusable :
  let template := {| source := "Hello {name}"; replacements := [] |} in
  render template [("name", Str "World")] = Ok "Hello World"
  /\ render template [("name", Str "Y'all")] = Ok "Hello Y'all"
  /\ toString template = "Hello {name}".
Proof. repeat split; reflexivity. Qed.

Example test_render_number_boolean :
  render {| source := "{number} is the loneliest number that you'll ever do";
            replacements := [] |} [("number", Num 1)]
  = Ok "1 is the loneliest number that you'll ever do"
  /\ render {| source := "It's the {adjective} kinda love";
               replacements := [] |} [("adjective", Bool true)]
     = Ok "It's the true kinda love".
Proof. split; reflexivity. Qed.

Example test_render_repeated :
  render {| source := "Their name is {name}. {name} is {age} years old.";
            replacements := [] |} [("name", Str "Ariel"); ("age", Num 20)]
  = Ok "Their name is Ariel. Ariel is 20 years old.".
Proof. reflexivity. Qed.

Example test_render_defaults :
  render Sample.greeting [("name", Str "John")]
  = Ok "Hello John! My age is 25."
  /\ render Sample.greeting [("name", Str "John"); ("age", Num 20)]
     = Ok "Hello John! My age is 20.".
Proof. split; reflexivity. Qed.

Example test_render_missing :
  render Sample.hi [] = Throw (MissingPlaceholderError ["name"]).
Proof. reflexivity. Qed.

Example test_partialRender :
  toString
    (partialRender
       {| source := "My name is {first_name} {last_name}"; replacements := [] |}
       [("first_name", Str "Sam")])
  = "My name is Sam {last_name}"
  /\ replacements (partialRender Sample.names [("first_name", Str "Sam")])
     = [("last_name", Str "Unknown")].
Proof. split; reflexivity. Qed.

End Tests.

(* ================================================================== *)
(** * Instances *)

Section Instances.
Import JS Template.

Lemma order_covers_types_witness :
  constructor sampleEmoji (JObj Sample.defaults) = Ok Sample.configuration
  /\ NoDup (suppliedOrder (JObj Sample.defaults))
  /\ Permutation (Configuration.order Sample.configuration)
                 (keys (Configuration.types Sample.configuration)).
Proof.
  assert (H : constructor sampleEmoji (JObj Sample.defaults)
              = Ok Sample.configuration) by (vm_compute; reflexivity).
  assert (Hs : NoDup (suppliedOrder (JObj Sample.defaults))).
  { vm_compute. constructor; [intros []|constructor]. }
  split; [exact H|]. split; [exact Hs|].
  exact (proj2 (proj2 (proj2 (proj2 (order_covers_types sampleEmoji _ _ H))) Hs)).
Defined.

(** C4 as stated fails on [Sample.repeated]: [feat] is a key of [types]
    and occurs twice in the final [order]. *)
Lemma order_keeps_repeats :
  fromFile sampleEmoji (JObj Sample.repeated) = Ok Sample.repeatedConfiguration
  /\ In "feat" (keys (Configuration.types Sample.repeatedConfiguration))
  /\ count_occ string_dec (Configuration.order Sample.repeatedConfiguration)
       "feat" = 2%nat
  /\ ~ NoDup (Configuration.order Sample.repeatedConfiguration).
Proof.
  split; [vm_compute; reflexivity|].
  split; [vm_compute; auto|]. split; [vm_compute; reflexivity|].
  intros H. apply (NoDup_count_occ string_dec) with (x := "feat") in H.
  vm_compute in H. lia.
Qed.

Lemma index_assignment_witness :
  resolved sampleEmoji Sample.configuration
  /\ (forall i, (0 <= i < 2)%Z ->
        exists key t,
          getOwn key (Configuration.types Sample.configuration) = Some t
          /\ IndexedType.index t = i).
Proof.
  assert (H : resolved sampleEmoji Sample.configuration).
  { left. exists (JObj Sample.defaults). vm_compute. reflexivity. }
  split; [exact H|].
  refine (proj2 (proj2 (proj2 (index_assignment sampleEmoji _ H) _ _))).
  - intros key t Hg. apply getOwn_Some_In in Hg. vm_compute in Hg.
    destruct Hg as [[= <- <-]|[[= <- <-]|[]]]; reflexivity.
  - vm_compute. repeat constructor; simpl; intuition discriminate.
Defined.

(** C1 as stated fails on [Sample.renamed], where the type stored under
    [feature] gets the index -1, and on [Sample.repeated], where [fix]
    gets the index 2 among two types: both lie outside [0, count). *)
Lemma index_outside_range :
  fromFile sampleEmoji (JObj Sample.renamed) = Ok Sample.renamedConfiguration
  /\ fromFile sampleEmoji (JObj Sample.repeated)
     = Ok Sample.repeatedConfiguration
  /\ (exists t,
        getOwn "feature" (Configuration.types Sample.renamedConfiguration)
        = Some t
        /\ IndexedType.index t = (-1)%Z
        /\ ~ (0 <= IndexedType.index t
              < Z.of_nat (List.length
                            (Configuration.types Sample.renamedConfiguration)))%Z)
  /\ (exists t,
        getOwn "fix" (Configuration.types Sample.repeatedConfiguration)
        = Some t
        /\ IndexedType.index t = 2%Z
        /\ ~ (0 <= IndexedType.index t
              < Z.of_nat (List.length
                            (Configuration.types Sample.repeatedConfiguration)))%Z).
Proof.
  split; [vm_compute; reflexivity|]. split; [vm_compute; reflexivity|].
  split; eexists; (split; [reflexivity|]); (split; [reflexivity|]); simpl; lia.
Qed.

Lemma order_entries_are_types_witness :
  constructor sampleEmoji (JObj Sample.unknownOrder) = Throw ZodError
  /\ Forall (fun e => In e (keys (Configuration.types Sample.configuration)))
            (Configuration.order Sample.configuration).
Proof.
  split.
  - apply (proj1 (order_entries_are_types sampleEmoji (JObj Sample.unknownOrder))).
    exists "docs". split; [vm_compute; auto|].
    vm_compute. intuition discriminate.
  - apply (proj2 (proj2 (order_entries_are_types sampleEmoji
                           (JObj Sample.defaults)))).
    vm_compute. reflexivity.
Defined.

(** C10 as stated fails on [Sample.spaced]: the entry [" feat"] of its
    [order] is not a key of [types], and the construction succeeds. *)
Lemma spaced_entry_is_accepted :
  fromFile sampleEmoji (JObj Sample.spaced) = Ok Sample.spacedConfiguration
  /\ getOwn "order" Sample.spaced = Some (JArr [JStr " feat"])
  /\ ~ In " feat" (keys Sample.types)
  /\ ~ In " feat" (keys (Configuration.types Sample.spacedConfiguration)).
Proof.
  split; [vm_compute; reflexivity|]. split; [reflexivity|].
  split; vm_compute; intuition discriminate.
Qed.

Lemma scopes_of_types_witness :
  constructor sampleEmoji (JObj Sample.aliasScopes)
  = Ok Sample.aliasScopesConfiguration
  /\ (forall k,
        In k (keys (Configuration.scopes Sample.aliasScopesConfiguration))
        <-> In k (keys (Configuration.types Sample.aliasScopesConfiguration))).
Proof.
  assert (H : constructor sampleEmoji (JObj Sample.aliasScopes)
              = Ok Sample.aliasScopesConfiguration) by (vm_compute; reflexivity).
  split; [exact H|].
  destruct (scopes_of_types sampleEmoji _ _ H) as (doc & rawScopes & _ & _ & Hk & _).
  exact Hk.
Defined.

(** C5 as stated fails on [Sample.aliasScopes]: the alias [breaking] is
    listed in the document's [scopes] with an entry, and the resolved
    [scopes] has nothing under that key.  It fails on [Sample.defaults]
    as well, whose [scopes] does not list the alias: the resolved
    [scopes] has nothing under the key there either, not the empty
    sequence. *)
Lemma alias_scopes_are_dropped :
  constructor sampleEmoji (JObj Sample.aliasScopes)
  = Ok Sample.aliasScopesConfiguration
  /\ In "breaking" (keys (Configuration.aliases Sample.aliasScopesConfiguration))
  /\ (exists rawScopes,
        getOwn "scopes" Sample.aliasScopes = Some (JObj rawScopes)
        /\ getOwn "breaking" rawScopes = Some (JArr [JStr "api"]))
  /\ getOwn "breaking" (Configuration.scopes Sample.aliasScopesConfiguration)
     = None
  /\ constructor sampleEmoji (JObj Sample.defaults) = Ok Sample.configuration
  /\ In "breaking" (keys (Configuration.aliases Sample.configuration))
  /\ (exists rawScopes,
        getOwn "scopes" Sample.defaults = Some (JObj rawScopes)
        /\ getOwn "breaking" rawScopes = None)
  /\ getOwn "breaking" (Configuration.scopes Sample.configuration) <> Some [].
Proof.
  split; [vm_compute; reflexivity|]. split; [vm_compute; auto|].
  split; [eexists; split; reflexivity|]. split; [reflexivity|].
  split; [vm_compute; reflexivity|]. split; [vm_compute; auto|].
  split; [eexists; split; reflexivity|]. vm_compute. discriminate.
Qed.

Lemma custom_order_replaces_witness :
  getOwn "order" Sample.customOrder = Some (JArr [JStr " feat"])
  /\ fromFiles sampleEmoji Sample.defaults Sample.customOrder
     = Ok Sample.layeredOrder
  /\ exists ss,
       JArr [JStr " feat"] = JArr (map JStr ss)
       /\ Configuration.order Sample.layeredOrder
          = map Text.trim ss
            ++ missingKeys (map Text.trim ss)
                 (keys (Configuration.types Sample.layeredOrder)).
Proof.
  assert (Hj : getOwn "order" Sample.customOrder = Some (JArr [JStr " feat"]))
    by reflexivity.
  assert (H : fromFiles sampleEmoji Sample.defaults Sample.customOrder
              = Ok Sample.layeredOrder) by (vm_compute; reflexivity).
  split; [exact Hj|]. split; [exact H|].
  exact (custom_order_replaces sampleEmoji _ _ _ _ Hj H).
Defined.

(** C2 as stated fails on [Sample.customOrder]: the [order] of the
    configuration starts with ["feat"], not with the entry [" feat"] of
    the custom document. *)
Lemma custom_order_is_trimmed :
  fromFiles sampleEmoji Sample.defaults Sample.customOrder
  = Ok Sample.layeredOrder
  /\ getOwn "order" Sample.customOrder = Some (JArr [JStr " feat"])
  /\ Configuration.order Sample.layeredOrder = ["feat"; "fix"]
  /\ ~ (exists appended,
          Configuration.order Sample.layeredOrder = [" feat"] ++ appended).
Proof.
  split; [vm_compute; reflexivity|]. split; [reflexivity|].
  split; [reflexivity|]. intros (appended & H). simpl in H. discriminate.
Qed.

Lemma deep_merge_of_documents_witness :
  NoDup (keys Sample.defaults) /\ NoDup (keys Sample.custom)
  /\ getOwn "scopes" (merged Sample.defaults Sample.custom)
     = Some (JObj (DeepMerge.deepMerge
                     [("feat", JArr [JStr "api"])]
                     [("feat", JArr [JStr "cli"])] None)).
Proof.
  assert (Hd : NoDup (keys Sample.defaults)).
  { simpl. repeat constructor; simpl; intuition discriminate. }
  assert (Hc : NoDup (keys Sample.custom)).
  { simpl. repeat constructor; simpl; intuition discriminate. }
  split; [exact Hd|]. split; [exact Hc|].
  refine (proj2 (deep_merge_of_documents sampleEmoji Sample.defaults
                   Sample.custom "scopes" Hd Hc _ _)); discriminate.
Defined.

(** C3 as stated fails on [Sample.defaults] and [Sample.custom]: both
    list scopes for [feat], and the merged array is the two arrays one
    after the other, not the array of the custom document. *)
Lemma arrays_are_concatenated :
  fromFiles sampleEmoji Sample.defaults Sample.custom = Ok Sample.layered
  /\ (exists s, getOwn "scopes" Sample.defaults = Some (JObj s)
                /\ getOwn "feat" s = Some (JArr [JStr "api"]))
  /\ (exists s, getOwn "scopes" Sample.custom = Some (JObj s)
                /\ getOwn "feat" s = Some (JArr [JStr "cli"]))
  /\ (exists s, getOwn "scopes" (merged Sample.defaults Sample.custom)
                = Some (JObj s)
                /\ getOwn "feat" s = Some (JArr [JStr "api"; JStr "cli"]))
  /\ getOwn "feat" (Configuration.scopes Sample.layered)
     = Some ["api"; "cli"].
Proof.
  split; [vm_compute; reflexivity|].
  repeat split; try (eexists; split; vm_compute; reflexivity).
Qed.


Lemma partialRender_resolves_supplied_witness :
  nth_error [Sample.names] 0 = Some Sample.names
  /\ exists instances' that result,
       partialRenderOf [Sample.names] 0 [("first_name", Str "Sam")]
       = Some (instances', that)
       /\ that <> 0%nat
       /\ nth_error instances' 0 = Some Sample.names
       /\ nth_error instances' that = Some result
       /\ source result = "My name is Sam {last_name}"
       /\ replacements result = [("last_name", Str "Unknown")]
       /\ (forall n v, In (n, v) (replacements result) ->
                       In n (placeholders (source result))).
Proof.
  split; [reflexivity|].
  destruct (partialRender_resolves_supplied [Sample.names] 0 Sample.names
              [("first_name", Str "Sam")] eq_refl)
    as (instances' & that & result & Hcall & Hne & Hkeep & Hthat & Hres
        & _ & _ & Hopen & _).
  exists instances', that, result.
  split; [exact Hcall|]. split; [exact Hne|].
  split; [exact (Hkeep 0%nat Sample.names eq_refl)|].
  split; [exact Hthat|].
  split; [rewrite Hres; reflexivity|].
  split; [rewrite Hres; reflexivity|exact Hopen].
Defined.

(** C7 as stated fails on the template of the test
    [template.test.ts:121-129]: the defaults resolve [last_name], so
    under the claim it is substituted and its default dropped, whereas
    the returned template keeps the placeholder open and carries its
    default, as the test asserts. *)
Lemma default_placeholder_stays_open :
  let result := partialRender Sample.names [("first_name", Str "Sam")] in
  In "last_name" (placeholders (source Sample.names))
  /\ resolve [("first_name", Str "Sam")] (replacements Sample.names)
       "last_name" = Some (Str "Unknown")
  /\ source result = "My name is Sam {last_name}"
  /\ replacements result = [("last_name", Str "Unknown")]
  /\ partialRender_spec Sample.names [("first_name", Str "Sam")]
     = {| source := "My name is Sam Unknown"; replacements := [] |}
  /\ result <> partialRender_spec Sample.names [("first_name", Str "Sam")].
Proof.
  simpl. split; [vm_compute; auto|].
  repeat split; try reflexivity. vm_compute. discriminate.
Qed.

End Instances.

(* ================================================================== *)
(** * Trimmed text *)

Section TrimFacts.
Import Text.

Lemma strip_cases back l :
  (leading back l = false /\ strip back l = l)
  \/ (leading back l = true
      /\ exists p r, p <> [] /\ l = p ++ r /\ strip back l = strip back r).
Proof.
  destruct l as [|a r1]; [now left|]. simpl.
  destruct (ws1 (N_of_ascii a)).
  { right. split; [reflexivity|]. now exists [a], r1. }
  destruct r1 as [|b r2]; [now left|]. simpl.
  destruct (if back then ws2 (N_of_ascii b) (N_of_ascii a)
            else ws2 (N_of_ascii a) (N_of_ascii b)).
  { right. split; [reflexivity|]. now exists [a; b], r2. }
  destruct r2 as [|c r3]; [now left|]. simpl.
  destruct (if back then ws3 (N_of_ascii c) (N_of_ascii b) (N_of_ascii a)
            else ws3 (N_of_ascii a) (N_of_ascii b) (N_of_ascii c)).
  { right. split; [reflexivity|]. now exists [a; b; c], r3. }
  now left.
Qed.

Lemma strip_spec back l :
  exists p, l = p ++ strip back l /\ leading back (strip back l) = false.
Proof.
  remember (List.length l) as n eqn:Hn. revert l Hn.
  induction n as [n IH] using lt_wf_ind. intros l ->.
  destruct (strip_cases back l) as [[Hl E]|[_ (p & r & Hp & -> & E)]].
  - exists []. rewrite E. split; [reflexivity|exact Hl].
  - destruct (IH (List.length r)) with (l := r) as (q & Hq & Hlead);
      [|reflexivity|].
    + rewrite length_app. destruct p; [contradiction|simpl; lia].
    + exists (p ++ q). rewrite E, <- app_assoc, <- Hq. split; [reflexivity|exact Hlead].
Qed.

Lemma strip_fixed back l : leading back l = false -> strip back l = l.
Proof.
  intros H. destruct (strip_cases back l) as [[_ E]|[H' _]]; congruence.
Qed.

(** A prefix of a list with no leading white space has none either. *)
Lemma leading_prefix x y :
  leading false (x ++ y) = false -> leading false x = false.
Proof.
  destruct x as [|a [|b [|c x']]]; simpl; try reflexivity.
  - destruct (ws1 (N_of_ascii a)); [discriminate|reflexivity].
  - destruct (ws1 (N_of_ascii a)); [discriminate|]. simpl.
    destruct (ws2 (N_of_ascii a) (N_of_ascii b)); [discriminate|reflexivity].
  - tauto.
Qed.

Lemma trim_idempotent s : trim (trim s) = trim s.
Proof.
  unfold trim. rewrite list_ascii_of_string_of_list_ascii.
  set (y := strip false (list_ascii_of_string s)).
  destruct (strip_spec false (list_ascii_of_string s)) as (_ & _ & Hy).
  fold y in Hy.
  destruct (strip_spec true (rev y)) as (p & Hp & Hz).
  set (z := strip true (rev y)) in *.
  assert (Hy' : y = rev z ++ rev p).
  { rewrite <- rev_app_distr, <- Hp. symmetry. apply rev_involutive. }
  assert (Hx : strip false (rev z) = rev z).
  { apply strip_fixed. apply leading_prefix with (y := rev p).
    now rewrite <- Hy'. }
  rewrite Hx, rev_involutive, (strip_fixed true z Hz). reflexivity.
Qed.

Lemma TextSchema_fixed v t :
  TextSchema v = Some t -> t <> EmptyString /\ Text.trim t = t.
Proof.
  intros H. apply TextSchema_inv in H as (s & _ & -> & Hne).
  split; [exact Hne|apply trim_idempotent].
Qed.

End TrimFacts.

(** X1.  The text a [TextSchema] returns is not empty and is a fixed
    point of the schema: validating it again returns it unchanged.  A
    string of white space only, and a value that is not a string, are
    rejected. *)
Theorem TextSchema_idempotent :
  (forall v t,
      TextSchema v = Some t ->
      t <> EmptyString /\ TextSchema (JS.Own (JStr t)) = Some t)
  /\ (forall s, Text.trim s = EmptyString ->
                TextSchema (JS.Own (JStr s)) = None)
  /\ (forall v, (forall s, v <> JS.Own (JStr s)) -> TextSchema v = None).
Proof.
  split; [|split].
  - intros v t H. apply TextSchema_fixed in H as [Hne Ht].
    split; [exact Hne|]. unfold TextSchema. simpl. rewrite Ht.
    destruct t; [contradiction|reflexivity].
  - intros s H. unfold TextSchema. simpl. now rewrite H.
  - intros v H. unfold TextSchema, Zod.string.
    destruct v as [[| | |s| |]| |]; try reflexivity. now destruct (H s).
Qed.

(* ================================================================== *)
(** * Validated records *)

Section RecordFacts.
Import JS.

Lemma In_update {V} k v (o : object V) k' v' :
  In (k', v') (update k v o) -> (k', v') = (k, v) \/ In (k', v') o.
Proof.
  induction o as [|[k0 v0] rest IH]; simpl; [tauto|].
  destruct (String.eqb_spec k0 k) as [->|Hne]; simpl; intuition.
Qed.

Lemma In_setProp {V} k v (o : object V) k' v' :
  In (k', v') (setProp k v o) -> (k', v') = (k, v) \/ In (k', v') o.
Proof.
  unfold setProp. destruct (hasOwn k o); [apply In_update|].
  destruct (arrayIndex k) as [n|].
  - intros H. apply (Permutation_in _ (insertIndex_perm n k v o)) in H.
    destruct H as [<-|H]; auto.
  - intros H. apply in_app_or in H as [H|[<-|[]]]; auto.
Qed.

(** Every entry of the output of [z.record] is the parse of an entry of
    the input, and every input key is parsed. *)
Lemma record_entries {A} (key : Zod.schema string) (value : Zod.schema A)
  data out :
  Zod.record key value (Own (JObj data)) = Some out ->
  (forall k a, In (k, a) out ->
               exists k0 j, In (k0, j) data
                            /\ key (Own (JStr k0)) = Some k
                            /\ value (Own j) = Some a)
  /\ (forall k0, In k0 (keys data) ->
                 exists k, key (Own (JStr k0)) = Some k
                           /\ (k <> "__proto__" -> In k (keys out))).
Proof.
  unfold Zod.record.
  assert (G : forall acc,
             fold_left
               (fun acc '(k, j) =>
                  out <- acc ;; k' <- key (Own (JStr k)) ;;
                  a <- value (Own j) ;;
                  Some (if String.eqb k' "__proto__" then out
                        else setProp k' a out))
               data (Some acc) = Some out ->
             (forall k a, In (k, a) out ->
                 In (k, a) acc
                 \/ exists k0 j, In (k0, j) data
                                 /\ key (Own (JStr k0)) = Some k
                                 /\ value (Own j) = Some a)
             /\ (forall k, In k (keys acc) -> In k (keys out))
             /\ (forall k0, In k0 (keys data) ->
                   exists k, key (Own (JStr k0)) = Some k
                             /\ (k <> "__proto__" -> In k (keys out)))).
  { induction data as [|[k0 j] rest IH]; simpl; intros acc.
    - intros [= <-]. repeat split; tauto.
    - destruct (key (Own (JStr k0))) as [k'|] eqn:Ek;
        [|rewrite fold_option_None; [discriminate | now intros [? ?]]].
      destruct (value (Own j)) as [a'|] eqn:Ev;
        [|rewrite fold_option_None; [discriminate | now intros [? ?]]].
      intros H. apply IH in H as (Hin & Hacc & Hall).
      split; [|split].
      + intros k a Hka. destruct (Hin k a Hka) as [H|(k1 & j1 & H1 & H2)].
        * assert (H' : (k, a) = (k', a') \/ In (k, a) acc).
          { destruct (String.eqb k' "__proto__"); [now right|].
            now apply In_setProp. }
          destruct H' as [[= -> ->]|H']; [|now left].
          right. exists k0, j. auto.
        * right. exists k1, j1. split; [now right|exact H2].
      + intros k Hk. apply Hacc.
        destruct (String.eqb k' "__proto__"); [exact Hk|].
        apply In_keys_setProp. now right.
      + intros k1 [<-|Hk1]; [|now apply Hall].
        exists k'. split; [exact Ek|]. intros Hp. apply Hacc.
        apply String.eqb_neq in Hp. rewrite Hp.
        apply In_keys_setProp. now left. }
  intros H. apply G in H as (Hin & _ & Hall). split; [|exact Hall].
  intros k a Hka. destruct (Hin k a Hka) as [[]|H]. exact H.
Qed.

Lemma array_TextSchema_valid v l :
  Zod.array TextSchema v = Some l -> Forall validText l.
Proof.
  unfold Zod.array. destruct v as [[| | | |items|]| |]; try discriminate.
  intros H. apply traverse_Forall2 in H.
  induction H as [|j t items l Hj _ IH]; constructor; [|exact IH].
  now apply TextSchema_fixed in Hj.
Qed.

End RecordFacts.

Section SchemaInvariants.
Import JS.
Variable EMOJI_CHAR_REGEX_GLOBAL : string -> bool.
Let em := EMOJI_CHAR_REGEX_GLOBAL.

Lemma EmojiObjectSchema_valid v e :
  EmojiObjectSchema em v = Some e -> validEmoji em e.
Proof.
  unfold EmojiObjectSchema, Zod.regex.
  destruct v as [[| | | | |o]| |]; try discriminate.
  destruct (Zod.string (getProp "character" o)) as [c|]; [|discriminate].
  destruct (em c) eqn:Ec; [|discriminate].
  destruct (Zod.string (getProp "code" o)) as [d|]; [|discriminate].
  destruct (EMOJI_CODE_REGEX d) eqn:Ed; [|discriminate].
  destruct (Zod.string (getProp "name" o)); [|discriminate].
  intros [= <-]. split; assumption.
Qed.

Lemma CommitTypeSchema_valid v c :
  CommitTypeSchema em v = Some c ->
  validText (CommitType.type c) /\ validText (CommitType.title c)
  /\ validText (CommitType.description c)
  /\ validEmoji em (CommitType.emoji c).
Proof.
  unfold CommitTypeSchema. destruct v as [[| | | | |o]| |]; try discriminate.
  destruct (TextSchema (getProp "type" o)) eqn:E1; [|discriminate].
  destruct (TextSchema (getProp "title" o)) eqn:E2; [|discriminate].
  destruct (TextSchema (getProp "description" o)) eqn:E3; [|discriminate].
  destruct (Zod.nullable _ _); [|discriminate].
  destruct (Zod.boolean _); [|discriminate].
  destruct (EmojiObjectSchema em _) eqn:E4; [|discriminate].
  intros [= <-]. simpl.
  apply TextSchema_fixed in E1, E2, E3. apply EmojiObjectSchema_valid in E4.
  auto.
Qed.

Lemma CommitAliasSchema_valid v a :
  CommitAliasSchema em v = Some a ->
  validText (CommitAlias.type a) /\ validText (CommitAlias.name a)
  /\ validText (CommitAlias.description a)
  /\ validEmoji em (CommitAlias.emoji a).
Proof.
  unfold CommitAliasSchema. destruct v as [[| | | | |o]| |]; try discriminate.
  destruct (TextSchema (getProp "type" o)) eqn:E1; [|discriminate].
  destruct (TextSchema (getProp "description" o)) eqn:E3; [|discriminate].
  destruct (Zod.nullable _ _); [|discriminate].
  destruct (Zod.boolean _); [|discriminate].
  destruct (EmojiObjectSchema em _) eqn:E4; [|discriminate].
  destruct (TextSchema (getProp "name" o)) eqn:E2; [|discriminate].
  intros [= <-]. simpl.
  apply TextSchema_fixed in E1, E2, E3. apply EmojiObjectSchema_valid in E4.
  auto.
Qed.

(** The parts of a document the object stage parses, each by its schema. *)
Lemma ConfigurationObject_parts raw value :
  ConfigurationObject em (Own raw) = Some value ->
  exists doc,
    raw = JObj doc
    /\ Zod.record TextSchema (CommitTypeSchema em) (getProp "types" doc)
       = Some (Parsed.types value)
    /\ Zod.record TextSchema (CommitAliasSchema em) (getProp "aliases" doc)
       = Some (Parsed.aliases value)
    /\ TextSchema (getProp "fallback" doc) = Some (Parsed.fallback value)
    /\ Zod.default [] (Zod.array TextSchema) (getProp "order" doc)
       = Some (Parsed.order value)
    /\ Parsed.scopes value = getProp "scopes" doc.
Proof.
  unfold ConfigurationObject. destruct raw as [| | | | |doc]; try discriminate.
  destruct (Zod.record TextSchema (CommitTypeSchema em) _) as [types|] eqn:E1;
    [|discriminate].
  destruct (Zod.record TextSchema (CommitAliasSchema em) _) as [aliases|] eqn:E2;
    [|discriminate].
  destruct (TextSchema (getProp "fallback" doc)) as [fallback|] eqn:E3;
    [|discriminate].
  destruct (Zod.default _ _ _) as [order|] eqn:E4; [|discriminate].
  intros [= <-]. exists doc. simpl. repeat split; assumption || reflexivity.
Qed.

Lemma record_input {A} (key : Zod.schema string) (value : Zod.schema A) v out :
  Zod.record key value v = Some out -> exists data, v = Own (JObj data).
Proof.
  unfold Zod.record. destruct v as [[| | | | |data]| |]; try discriminate.
  intros _. now exists data.
Qed.

(** The parts of a constructed configuration, from the parsed value. *)
Lemma constructor_parts raw this :
  constructor em raw = Ok this ->
  exists value,
    ConfigurationObject em (Own raw) = Some value
    /\ fallbackInTypes value = true
    /\ keys (Configuration.types this) = keys (Parsed.types value)
    /\ (forall k t, In (k, t) (Configuration.types this) ->
          In (k, IndexedType.commitType t) (Parsed.types value)
          /\ IndexedType.index t
             = indexOf (IndexedType.type t) (Configuration.order this))
    /\ Configuration.aliases this = Parsed.aliases value
    /\ Configuration.fallback this = Parsed.fallback value.
Proof.
  intros H. apply constructor_inv in H
    as (value & p & Hv & Hf & Ht & Hty & Hal & Hfb & _ & Ho).
  pose proof Hv as Hv'.
  apply ConfigurationObject_inv in Hv' as (doc & _ & Hnd & _).
  apply transform_spec in Ht as (Hty' & Hal' & Hfb' & _); [|exact Hnd].
  exists value. split; [exact Hv|]. split; [exact Hf|].
  rewrite Hty, keys_assignIndex, Hty', Hal, Hal', Hfb, Hfb'.
  repeat split; try reflexivity.
  - apply in_map_iff in H as ([k' c] & [= <- <-] & Hin). exact Hin.
  - apply in_map_iff in H as ([k' c] & [= <- <-] & Hin). now rewrite Ho.
Qed.

(** X2.  In a constructed configuration every key of [types] and of
    [aliases] is a non-empty trimmed text, and every record has
    non-empty trimmed [type], [title] (or [name]) and [description], an
    emoji character that the emoji pattern matches and an emoji code of
    the form [:word:]. *)
Theorem records_are_validated raw this :
  constructor em raw = Ok this ->
  (forall k t,
      In (k, t) (Configuration.types this) ->
      validText k
      /\ validText (IndexedType.type t)
      /\ validText (CommitType.title (IndexedType.commitType t))
      /\ validText (CommitType.description (IndexedType.commitType t))
      /\ validEmoji em (IndexedType.emoji t))
  /\ (forall k a,
         In (k, a) (Configuration.aliases this) ->
         validText k
         /\ validText (CommitAlias.type a)
         /\ validText (CommitAlias.name a)
         /\ validText (CommitAlias.description a)
         /\ validEmoji em (CommitAlias.emoji a)).
Proof.
  intros H. apply constructor_parts in H
    as (value & Hv & _ & _ & Hty & Hal & _).
  apply ConfigurationObject_parts in Hv as (doc & _ & Ht & Ha & _).
  split.
  - intros k t Hin. apply Hty in Hin as [Hin _].
    destruct (record_input _ _ _ _ Ht) as (data & Hd). rewrite Hd in Ht.
    apply record_entries in Ht as [Ht _].
    destruct (Ht _ _ Hin) as (k0 & j & _ & Hk & Hc).
    apply TextSchema_fixed in Hk. apply CommitTypeSchema_valid in Hc.
    split; [exact Hk|exact Hc].
  - intros k a Hin. rewrite Hal in Hin.
    destruct (record_input _ _ _ _ Ha) as (data & Hd). rewrite Hd in Ha.
    apply record_entries in Ha as [Ha _].
    destruct (Ha _ _ Hin) as (k0 & j & _ & Hk & Hc).
    apply TextSchema_fixed in Hk. apply CommitAliasSchema_valid in Hc.
    split; [exact Hk|exact Hc].
Qed.

End SchemaInvariants.

(* ================================================================== *)
(** * Invariants of a constructed configuration *)

Section ConfigurationInvariants.
Import JS.
Variable EMOJI_CHAR_REGEX_GLOBAL : string -> bool.
Let em := EMOJI_CHAR_REGEX_GLOBAL.

Lemma getOwn_getProp {V} k (o : object V) v :
  getProp k o = Own v -> getOwn k o = Some v.
Proof.
  unfold getProp. destruct (getOwn k o) as [v'|].
  - now intros [= ->].
  - destruct (inherited k); discriminate.
Qed.

(** X3.  The [fallback] of a constructed configuration is a non-empty
    trimmed text that is a key of [types] or the name of a member of
    [Object.prototype]; when it is not such a name, [findTypeByName]
    finds the fallback type. *)
Theorem fallback_names_a_type raw this :
  constructor em raw = Ok this ->
  validText (Configuration.fallback this)
  /\ (In (Configuration.fallback this) (keys (Configuration.types this))
      \/ inherited (Configuration.fallback this) = true)
  /\ (inherited (Configuration.fallback this) = false ->
      exists t,
        getOwn (Configuration.fallback this) (Configuration.types this)
        = Some t
        /\ findTypeByName this (Configuration.fallback this) = Some (Own t)).
Proof.
  intros H. apply constructor_parts in H
    as (value & Hv & Hf & Hk & _ & _ & Hfb).
  apply ConfigurationObject_parts in Hv as (doc & _ & _ & _ & Ht & _).
  apply TextSchema_fixed in Ht. rewrite <- Hfb in Ht.
  unfold fallbackInTypes, hasProperty in Hf. rewrite <- Hfb in Hf.
  assert (Hor : In (Configuration.fallback this)
                   (keys (Configuration.types this))
                \/ inherited (Configuration.fallback this) = true).
  { apply orb_true_iff in Hf as [Hf|Hf]; [left|now right].
    rewrite Hk. now apply hasOwn_true. }
  split; [exact Ht|]. split; [exact Hor|].
  intros Hi. destruct Hor as [Hin|Hin]; [|congruence].
  apply In_keys_getOwn in Hin as (t & Hg). exists t. split; [exact Hg|].
  unfold findTypeByName, hasProperty, hasOwn, getProp. now rewrite Hg.
Qed.

(** X4.  In a constructed configuration the [index] of a record lies
    between -1 and the length of [order]; it is -1 exactly when the
    record's [type] is not a key of [types]; and when it is not
    negative, [order] holds the record's [type] at that position. *)
Theorem index_bounds raw this key t :
  constructor em raw = Ok this ->
  getOwn key (Configuration.types this) = Some t ->
  (-1 <= IndexedType.index t
   < Z.of_nat (List.length (Configuration.order this)))%Z
  /\ (IndexedType.index t = (-1)%Z
      <-> ~ In (IndexedType.type t) (keys (Configuration.types this)))
  /\ ((0 <= IndexedType.index t)%Z ->
      nth_error (Configuration.order this) (Z.to_nat (IndexedType.index t))
      = Some (IndexedType.type t)).
Proof.
  intros H Hg.
  pose proof (constructor_order _ _ _ H) as (_ & Ho & HF).
  cbv zeta in Ho. rewrite Forall_forall in HF.
  apply constructor_parts in H as (value & _ & _ & _ & Hty & _).
  apply getOwn_Some_In, Hty in Hg as [_ Hi]. rewrite Hi.
  destruct (in_dec string_dec (IndexedType.type t) (Configuration.order this))
    as [Hin|Hni].
  - destruct (indexOf_present _ _ Hin) as (n & -> & Hn & Hlt).
    rewrite Nat2Z.id. split; [lia|]. split; [|now intros _].
    split; [lia|]. intros Hk. exfalso. apply Hk. now apply HF.
  - rewrite (indexOf_absent _ _ Hni). split; [lia|]. split; [|lia].
    split; [|reflexivity]. intros _ Hk. apply Hni. rewrite Ho.
    now apply order_covers.
Qed.

Lemma scopeSchema_valid v l : scopeSchema v = Some l -> Forall validText l.
Proof.
  unfold scopeSchema, Zod.default. destruct v as [j|n|].
  - apply array_TextSchema_valid.
  - apply array_TextSchema_valid.
  - intros [= <-]. constructor.
Qed.

(** X5.  Every scope of a constructed configuration is a non-empty
    trimmed text. *)
Theorem scopes_are_validated raw this k l :
  constructor em raw = Ok this ->
  getOwn k (Configuration.scopes this) = Some l ->
  Forall validText l.
Proof.
  intros H Hg. apply constructor_inv in H
    as (value & p & Hv & _ & Ht & _ & _ & _ & Hsc & _).
  apply ConfigurationObject_inv in Hv as (doc & _ & Hnd & _).
  apply transform_spec in Ht
    as (_ & _ & _ & _ & _ & data & _ & Hks & Hs); [|exact Hnd].
  rewrite Hsc in Hg. pose proof (getOwn_In_keys _ _ _ Hg) as Hin.
  apply Hks, Hs in Hin as (a & Ha & Hga).
  rewrite Hg in Hga. injection Hga as <-. now apply scopeSchema_valid in Ha.
Qed.

(** X6.  A document from which a configuration is constructed is an
    object whose [types], [aliases] and [scopes] are objects, whose
    [fallback] is a string and whose [order] is absent or an array of
    strings: from a document that lacks one of these no configuration
    is constructed. *)
Theorem required_properties raw this :
  constructor em raw = Ok this ->
  exists doc types aliases fallback scopes,
    raw = JObj doc
    /\ getOwn "types" doc = Some (JObj types)
    /\ getOwn "aliases" doc = Some (JObj aliases)
    /\ getOwn "fallback" doc = Some (JStr fallback)
    /\ getOwn "scopes" doc = Some (JObj scopes)
    /\ (getOwn "order" doc = None
        \/ exists ss, getOwn "order" doc = Some (JArr (map JStr ss))).
Proof.
  intros H. apply constructor_inv in H
    as (value & p & Hv & _ & Ht & _).
  pose proof Hv as Hv'.
  apply ConfigurationObject_inv in Hv'
    as (doc & -> & Hnd & _ & _ & Hord & _).
  apply transform_spec in Ht
    as (_ & _ & _ & _ & _ & data & Hd & _); [|exact Hnd].
  apply ConfigurationObject_parts in Hv
    as (doc' & [= <-] & Hty & Hal & Hfb & _ & Hsc).
  destruct (record_input _ _ _ _ Hty) as (types & Htypes).
  destruct (record_input _ _ _ _ Hal) as (aliases & Haliases).
  apply TextSchema_inv in Hfb as (fallback & Hfallback & _).
  rewrite Hsc in Hd.
  exists doc, types, aliases, fallback, data.
  split; [reflexivity|].
  repeat (split; [now apply getOwn_getProp|]).
  destruct (getOwn "order" doc) as [j|]; [right|now left].
  destruct (Hord j eq_refl) as (ss & ->). now exists ss.
Qed.

Lemma getProp_ext {V} k (d1 d2 : object V) :
  getOwn k d1 = getOwn k d2 -> getProp k d1 = getProp k d2.
Proof. unfold getProp. now intros ->. Qed.

Lemma constructor_ext d1 d2 :
  sameProperties d1 d2 ->
  constructor em (JObj d1) = constructor em (JObj d2).
Proof.
  intros H. unfold constructor, ConfigurationSchema, ConfigurationObject.
  rewrite (getProp_ext "types" d1 d2), (getProp_ext "aliases" d1 d2),
    (getProp_ext "fallback" d1 d2), (getProp_ext "scopes" d1 d2),
    (getProp_ext "order" d1 d2);
    try reflexivity; apply H; unfold schemaProperties; simpl; tauto.
Qed.

(** X7.  The constructor reads a document through its properties
    [types], [aliases], [fallback], [scopes] and [order] alone: two
    documents that agree on these give the same result, whatever else
    they hold. *)
Theorem unknown_properties_are_ignored d1 d2 :
  sameProperties d1 d2 ->
  fromFile em (JObj d1) = fromFile em (JObj d2).
Proof. apply constructor_ext. Qed.

End ConfigurationInvariants.

(* ================================================================== *)
(** * Properties of the layered load *)

Section LayeredFacts.
Import JS DeepMerge.

(** Two values that [mergeObjects] merges never give a string. *)
Lemma mergedValue_string options key a other s :
  mergedValue options key a other = JStr s ->
  match getOwn key other with
  | Some b => b = JStr s
  | None => a = JStr s
  end.
Proof.
  unfold mergedValue. destruct (getOwn key other) as [b|]; [|auto].
  destruct a, b; simpl; try (intros H; exact H); try discriminate.
  destruct (arrays options); discriminate.
Qed.

Lemma merged_without_order rawDefaults rawCustom :
  getOwn "order" rawCustom = None ->
  merged rawDefaults rawCustom = deepMerge rawDefaults rawCustom None.
Proof.
  intros H. unfold merged, hasProperty, hasOwn. now rewrite H.
Qed.

Lemma deepMerge_absent rawDefaults rawCustom k :
  NoDup (keys rawDefaults) -> NoDup (keys rawCustom) ->
  k <> "__proto__" -> getOwn k rawCustom = None ->
  getOwn k (deepMerge rawDefaults rawCustom None) = getOwn k rawDefaults.
Proof.
  intros Hd Hc Hk Hn. unfold deepMerge.
  rewrite deepMergeInternal_lookup by assumption. unfold mergedValue.
  rewrite Hn. now destruct (getOwn k rawDefaults).
Qed.

Lemma deepMerge_keys options record other k :
  NoDup (keys record) -> NoDup (keys other) -> k <> "__proto__" ->
  In k (keys record) \/ In k (keys other) ->
  In k (keys (deepMergeInternal options record other)).
Proof.
  intros Hr Ho Hk Hin. apply hasOwn_true. unfold hasOwn.
  rewrite deepMergeInternal_lookup by assumption.
  destruct (getOwn k record) as [a|] eqn:Ea; [reflexivity|].
  destruct Hin as [Hin|Hin]; apply In_keys_getOwn in Hin as (v & Hv).
  - congruence.
  - now rewrite Hv.
Qed.

Lemma order_NoDup (supplied ks : list string) :
  NoDup supplied -> NoDup ks -> NoDup (supplied ++ missingKeys supplied ks).
Proof.
  intros Hs Hk. apply NoDup_app; [exact Hs | now apply NoDup_filter |].
  intros k Hin Hm. apply filter_In in Hm as [_ Hm].
  apply negb_true_iff, includes_false in Hm. contradiction.
Qed.

End LayeredFacts.

Section LayeredTheorems.
Import JS DeepMerge.
Variable EMOJI_CHAR_REGEX_GLOBAL : string -> bool.
Let em := EMOJI_CHAR_REGEX_GLOBAL.

(** X8.  A custom document that has none of the properties [types],
    [aliases], [fallback], [scopes] and [order], the empty document
    among them, changes nothing: the layered load gives what loading
    the defaults alone gives. *)
Theorem custom_without_properties rawDefaults rawCustom :
  NoDup (keys rawDefaults) -> NoDup (keys rawCustom) ->
  (forall k, In k schemaProperties -> getOwn k rawCustom = None) ->
  fromFiles em rawDefaults rawCustom = fromFile em (JObj rawDefaults).
Proof.
  intros Hd Hc Hn. unfold fromFiles, fromFile. apply constructor_ext.
  intros k Hk. rewrite merged_without_order
    by (apply Hn; unfold schemaProperties; simpl; tauto).
  apply deepMerge_absent; try assumption; [|now apply Hn].
  unfold schemaProperties in Hk. simpl in Hk.
  intuition (subst; discriminate).
Qed.

(** X9.  When the custom document has no [order], a layered load keeps
    the [order] of the defaults: the configuration's [order] is the
    order the defaults supply (entries trimmed) followed by the keys of
    the merged [types] it lacks. *)
Theorem defaults_order_is_kept rawDefaults rawCustom this :
  NoDup (keys rawDefaults) -> NoDup (keys rawCustom) ->
  getOwn "order" rawCustom = None ->
  fromFiles em rawDefaults rawCustom = Ok this ->
  Configuration.order this
  = suppliedOrder (JObj rawDefaults)
    ++ missingKeys (suppliedOrder (JObj rawDefaults))
         (keys (Configuration.types this)).
Proof.
  intros Hd Hc Hn H. unfold fromFiles in H.
  apply constructor_order in H as (_ & Ho & _). cbv zeta in Ho.
  assert (Hs : suppliedOrder (JObj (merged rawDefaults rawCustom))
               = suppliedOrder (JObj rawDefaults)).
  { unfold suppliedOrder.
    rewrite merged_without_order, deepMerge_absent by (assumption || discriminate).
    reflexivity. }
  now rewrite Hs in Ho.
Qed.

(** X10.  When the custom document has a [fallback], a layered load that
    succeeds found a string there, and the configuration's [fallback] is
    that string, trimmed, whatever the defaults name. *)
Theorem custom_fallback_wins rawDefaults rawCustom j this :
  NoDup (keys rawDefaults) -> NoDup (keys rawCustom) ->
  getOwn "fallback" rawCustom = Some j ->
  fromFiles em rawDefaults rawCustom = Ok this ->
  exists s, j = JStr s /\ Configuration.fallback this = Text.trim s.
Proof.
  intros Hd Hc Hj H. unfold fromFiles in H.
  apply constructor_parts in H as (value & Hv & _ & _ & _ & _ & Hfb).
  apply ConfigurationObject_parts in Hv as (doc & [= <-] & _ & _ & Ht & _).
  apply TextSchema_inv in Ht as (s & Hs & Ht & _).
  apply getOwn_getProp in Hs.
  rewrite merged_lookup in Hs by discriminate. unfold deepMerge in Hs.
  rewrite deepMergeInternal_lookup in Hs by (assumption || discriminate).
  exists s. split; [|congruence].
  destruct (getOwn "fallback" rawDefaults) as [a|]; [|congruence].
  injection Hs as Hs. apply mergedValue_string in Hs.
  rewrite Hj in Hs. exact Hs.
Qed.

(** X11.  When both documents have an object [types], the [types] of
    the layered configuration has every key of the one and of the
    other, trimmed (a key that trims to [__proto__] apart). *)
Theorem merged_types_have_all_keys rawDefaults rawCustom types custom this k :
  NoDup (keys rawDefaults) -> NoDup (keys rawCustom) ->
  NoDup (keys types) -> NoDup (keys custom) ->
  getOwn "types" rawDefaults = Some (JObj types) ->
  getOwn "types" rawCustom = Some (JObj custom) ->
  fromFiles em rawDefaults rawCustom = Ok this ->
  In k (keys types) \/ In k (keys custom) ->
  Text.trim k <> "__proto__" ->
  In (Text.trim k) (keys (Configuration.types this)).
Proof.
  intros Hd Hc Ht Hcu Hgt Hgc H Hin Hp. unfold fromFiles in H.
  apply constructor_parts in H as (value & Hv & _ & Hk & _).
  apply ConfigurationObject_parts in Hv as (doc & [= <-] & Hty & _).
  assert (Hm : getProp "types" (merged rawDefaults rawCustom)
               = Own (JObj (deepMergeInternal defaultOptions types custom))).
  { unfold getProp. rewrite merged_lookup by discriminate. unfold deepMerge.
    rewrite deepMergeInternal_lookup by (assumption || discriminate).
    rewrite Hgt. unfold mergedValue. now rewrite Hgc. }
  rewrite Hm in Hty. apply record_entries in Hty as [_ Hall].
  destruct (Hall k) as (k' & Hk' & Hin').
  { apply deepMerge_keys; try assumption. intros ->. now apply Hp. }
  apply TextSchema_inv in Hk' as (s & [= <-] & -> & _).
  rewrite Hk. now apply Hin'.
Qed.

(** X12.  The test of [configuration.test.ts] on indices, for every
    custom order without repeated entries: the type named at position
    [i] of the custom order is a key of [types], and its record, when
    its [type] is that name, has the index [i]. *)
Theorem custom_order_gives_indices rawDefaults rawCustom ss this i s :
  getOwn "order" rawCustom = Some (JArr (map JStr ss)) ->
  NoDup (map Text.trim ss) ->
  fromFiles em rawDefaults rawCustom = Ok this ->
  nth_error ss i = Some s ->
  exists t,
    getOwn (Text.trim s) (Configuration.types this) = Some t
    /\ (IndexedType.type t = Text.trim s ->
        IndexedType.index t = Z.of_nat i).
Proof.
  intros Hj Hnd H Hn. unfold fromFiles in H.
  pose proof (constructor_order _ _ _ H) as (Hks & Ho & HF).
  cbv zeta in Ho, Hks. rewrite Forall_forall in HF.
  assert (Hs : suppliedOrder (JObj (merged rawDefaults rawCustom))
               = map Text.trim ss).
  { unfold suppliedOrder. rewrite (merged_order _ _ _ Hj).
    apply flat_map_JStr. }
  rewrite Hs in Ho.
  assert (Hnth : nth_error (Configuration.order this) i = Some (Text.trim s)).
  { rewrite Ho, nth_error_app1.
    - now rewrite nth_error_map, Hn.
    - rewrite length_map. apply nth_error_Some. congruence. }
  assert (Hin : In (Text.trim s) (keys (Configuration.types this))).
  { apply HF. eapply nth_error_In. eassumption. }
  apply In_keys_getOwn in Hin as (t & Hg). exists t. split; [exact Hg|].
  intros Ht. apply constructor_parts in H as (value & _ & _ & _ & Hty & _).
  apply getOwn_Some_In, Hty in Hg as [_ Hi]. rewrite Hi, Ht.
  apply indexOf_nth; [|exact Hnth].
  rewrite Ho. now apply order_NoDup.
Qed.

End LayeredTheorems.

(* ================================================================== *)
(** * Properties of the lookups *)

Section ScanFacts.
Import JS.

Lemma find_first {A} (code : A -> string) (o : object A) emoji :
  match option_map snd
          (find (fun '(_, a) => String.eqb (code a) emoji) o) with
  | Some a =>
      exists before k after,
        o = before ++ (k, a) :: after
        /\ code a = emoji
        /\ (forall k' a', In (k', a') before -> code a' <> emoji)
  | None => forall k a, In (k, a) o -> code a <> emoji
  end.
Proof.
  induction o as [|[k a] rest IH]; simpl; [tauto|].
  destruct (String.eqb_spec (code a) emoji) as [E|Hne]; simpl.
  - exists [], k, rest. repeat split; [exact E|intros ? ? []].
  - destruct (option_map snd _) as [a'|].
    + destruct IH as (before & k' & after & -> & E & Hb).
      exists ((k, a) :: before), k', after. repeat split; [exact E|].
      intros k0 a0 [[= <- <-]|Hin]; [exact Hne|eauto].
    + intros k0 a0 [[= <- <-]|Hin]; [exact Hne|eauto].
Qed.

End ScanFacts.

Section LookupTheorems.
Import JS.
Variable EMOJI_CHAR_REGEX_GLOBAL : string -> bool.
Let em := EMOJI_CHAR_REGEX_GLOBAL.

(** X13.  On a constructed configuration [findTypeByEmojiCode] returns
    the first record of [types], in enumeration order, whose emoji code
    is the one asked for, a record that [findTypeByName] returns under
    its key; it returns [null] exactly when no record has the code.
    [findAliasByEmojiCode] does the same on [aliases]. *)
Theorem emoji_scans_return_first raw this emoji :
  constructor em raw = Ok this ->
  match findTypeByEmojiCode this emoji with
  | Some t =>
      exists before key after,
        Configuration.types this = before ++ (key, t) :: after
        /\ EmojiObject.code (IndexedType.emoji t) = emoji
        /\ (forall k' t', In (k', t') before ->
                          EmojiObject.code (IndexedType.emoji t') <> emoji)
        /\ findTypeByName this key = Some (Own t)
  | None =>
      forall k t, In (k, t) (Configuration.types this) ->
                  EmojiObject.code (IndexedType.emoji t) <> emoji
  end
  /\ match findAliasByEmojiCode this emoji with
     | Some a =>
         exists before key after,
           Configuration.aliases this = before ++ (key, a) :: after
           /\ EmojiObject.code (CommitAlias.emoji a) = emoji
           /\ (forall k' a', In (k', a') before ->
                             EmojiObject.code (CommitAlias.emoji a') <> emoji)
           /\ findAliasByName this key = Some (Own a)
     | None =>
         forall k a, In (k, a) (Configuration.aliases this) ->
                     EmojiObject.code (CommitAlias.emoji a) <> emoji
     end.
Proof.
  intros H.
  pose proof (constructor_order _ _ _ H) as (Hnt & _). cbv zeta in Hnt.
  assert (Hna : NoDup (keys (Configuration.aliases this))).
  { apply constructor_parts in H as (value & Hv & _ & _ & _ & Hal & _).
    apply ConfigurationObject_parts in Hv as (doc & _ & _ & Ha & _).
    rewrite Hal. eapply record_NoDup. eassumption. }
  split.
  - unfold findTypeByEmojiCode.
    pose proof (find_first (fun t => EmojiObject.code (IndexedType.emoji t))
                  (Configuration.types this) emoji) as Hf.
    destruct (option_map snd _) as [t|]; [|exact Hf].
    destruct Hf as (before & key & after & E & Hc & Hb).
    exists before, key, after. repeat split; try assumption.
    apply findTypeByName_own, In_getOwn_NoDup; [exact Hnt|].
    rewrite E. apply in_or_app. right. now left.
  - unfold findAliasByEmojiCode.
    pose proof (find_first (fun a => EmojiObject.code (CommitAlias.emoji a))
                  (Configuration.aliases this) emoji) as Hf.
    destruct (option_map snd _) as [a|]; [|exact Hf].
    destruct Hf as (before & key & after & E & Hc & Hb).
    exists before, key, after. repeat split; try assumption.
    apply findAliasByName_own, In_getOwn_NoDup; [exact Hna|].
    rewrite E. apply in_or_app. right. now left.
Qed.

End LookupTheorems.

(** [findTypeByAliasName] answers for an alias what
    [findTypeByName] answers for the alias's [type]: the record of that
    type when [types] has it, and [null] when the alias names a type
    that [types] lacks (a name of a member of [Object.prototype] apart);
    for a name that is no alias (and no such member name) it returns
    [null]. *)
Lemma alias_resolves_through_type this name :
  match JS.getOwn name (Configuration.aliases this) with
  | Some a =>
      findTypeByAliasName this name
      = findTypeByName this (CommitAlias.type a)
      /\ (forall t,
             JS.getOwn (CommitAlias.type a) (Configuration.types this)
             = Some t ->
             findTypeByAliasName this name = Some (JS.Own t))
      /\ (JS.getOwn (CommitAlias.type a) (Configuration.types this) = None ->
          JS.inherited (CommitAlias.type a) = false ->
          findTypeByAliasName this name = None)
  | None =>
      JS.inherited name = false -> findTypeByAliasName this name = None
  end.
Proof.
  destruct (JS.getOwn name (Configuration.aliases this)) as [a|] eqn:Ea.
  - rewrite (findTypeByAliasName_own _ _ _ Ea). split; [reflexivity|].
    split.
    + intros t Ht. now apply findTypeByName_own.
    + intros Hn Hi. now apply findTypeByName_miss.
  - intros Hi. now apply findTypeByAliasName_miss.
Qed.

(* ================================================================== *)
(** * Properties of the emoji codes *)

Section EmojiCodeFacts.
Import EmojiCodes.

Lemma forallb_rev {A} (f : A -> bool) l :
  forallb f (rev l) = forallb f l.
Proof.
  induction l as [|a rest IH]; simpl; [reflexivity|].
  rewrite forallb_app, IH. simpl. rewrite andb_true_r. apply andb_comm.
Qed.

Lemma code_of_word w :
  w <> [] -> forallb Text.wordChar w = true ->
  EMOJI_CODE_REGEX (string_of_list_ascii (":"%char :: w ++ [":"%char])) = true.
Proof.
  intros Hw Hf. unfold EMOJI_CODE_REGEX.
  rewrite list_ascii_of_string_of_list_ascii, rev_app_distr. simpl.
  rewrite forallb_rev, Hf, length_rev.
  destruct w; [contradiction|reflexivity].
Qed.

Lemma word_of_code s :
  EMOJI_CODE_REGEX s = true ->
  exists w, w <> [] /\ forallb Text.wordChar w = true
            /\ list_ascii_of_string s = ":"%char :: w ++ [":"%char].
Proof.
  unfold EMOJI_CODE_REGEX.
  destruct (list_ascii_of_string s) as [|c rest]; [discriminate|].
  destruct (Ascii.eqb_spec c ":") as [->|Hc].
  - destruct (rev rest) as [|d name] eqn:Er; [discriminate|].
    destruct (Ascii.eqb_spec d ":") as [->|Hd].
    + intros H. apply andb_true_iff in H as [Hl Hf].
      exists (rev name). repeat split.
      * destruct name; [discriminate|]. simpl. now destruct (rev name).
      * now rewrite forallb_rev.
      * f_equal. rewrite <- (rev_involutive rest), Er. reflexivity.
    + destruct d as [[] [] [] [] [] [] [] []]; try discriminate.
      now contradiction Hd.
  - destruct c as [[] [] [] [] [] [] [] []]; try discriminate.
    now contradiction Hc.
Qed.

Lemma scan_codes_valid l name m :
  (forall n, name = Some n -> forallb Text.wordChar n = true) ->
  In (Code m) (scan l name) ->
  EMOJI_CODE_REGEX (string_of_list_ascii m) = true.
Proof.
  revert name. induction l as [|c rest IH]; intros [n|] Hn; simpl.
  - intros [[=]|Hin]. apply in_map_iff in Hin as (x & [=] & _).
  - intros [].
  - destruct (Text.wordChar c) eqn:Ew.
    + apply IH. intros n' [= <-]. simpl. rewrite Ew. now apply Hn.
    + destruct (Ascii.eqb c ":").
      * destruct n as [|a n'].
        -- intros [[=]|Hin]. revert Hin. apply IH. now intros ? [= <-].
        -- intros [[= <-]|Hin]; [|revert Hin; apply IH; discriminate].
           apply (code_of_word (rev (a :: n'))).
           ++ simpl. now destruct (rev n').
           ++ rewrite forallb_rev. now apply Hn.
      * intros [[=]|Hin]. apply in_app_or in Hin as [Hin|[[=]|Hin]].
        -- apply in_map_iff in Hin as (x & [=] & _).
        -- revert Hin. apply IH. discriminate.
  - destruct (Ascii.eqb c ":").
    + apply IH. now intros ? [= <-].
    + intros [[=]|Hin]. revert Hin. apply IH. discriminate.
Qed.

Lemma scan_word w rest n :
  forallb Text.wordChar w = true ->
  scan (w ++ rest) (Some n) = scan rest (Some (rev w ++ n)).
Proof.
  revert n. induction w as [|c w' IH]; intros n; simpl; [reflexivity|].
  intros H. apply andb_true_iff in H as [Hc Hw]. rewrite Hc, IH by exact Hw.
  now rewrite <- app_assoc.
Qed.

Lemma scan_close n rest :
  n <> [] ->
  scan (":"%char :: rest) (Some n)
  = Code (":"%char :: rev n ++ [":"%char]) :: scan rest None.
Proof. destruct n; [contradiction|reflexivity]. Qed.

Lemma scan_code w :
  w <> [] -> forallb Text.wordChar w = true ->
  scan (":"%char :: w ++ [":"%char]) None
  = [Code (":"%char :: w ++ [":"%char])].
Proof.
  intros Hw Hf. simpl. rewrite scan_word by exact Hf.
  rewrite app_nil_r, scan_close.
  - now rewrite rev_involutive.
  - intros E. apply Hw. apply (f_equal (@rev ascii)) in E.
    now rewrite rev_involutive in E.
Qed.

Lemma scan_plain l :
  ~ In ":"%char l -> scan l None = map Text l.
Proof.
  induction l as [|c rest IH]; simpl; [reflexivity|]. intros Hn.
  destruct (Ascii.eqb_spec c ":") as [->|_]; [tauto|].
  rewrite IH by tauto. reflexivity.
Qed.

(** X15.  Every code that [EMOJI_CODE_REGEX_GLOBAL] finds in a string
    passes [EMOJI_CODE_REGEX]; a string that passes [EMOJI_CODE_REGEX] is
    the one code found in it; and in a string without a colon the
    search finds nothing, so that [match] returns [null]. *)
Theorem global_codes_are_codes s :
  (forall m, In m (codes s) -> EMOJI_CODE_REGEX m = true)
  /\ (EMOJI_CODE_REGEX s = true -> matchGlobal s = Some [s])
  /\ (~ In ":"%char (list_ascii_of_string s) -> matchGlobal s = None).
Proof.
  split; [|split].
  - intros m Hin. unfold codes in Hin.
    apply in_flat_map in Hin as ([c|code] & Hp & Hm); [destruct Hm|].
    destruct Hm as [<-|[]]. eapply scan_codes_valid; [|exact Hp]. discriminate.
  - intros H. apply word_of_code in H as (w & Hw & Hf & E).
    unfold matchGlobal, codes, pieces.
    rewrite E, scan_code by assumption. cbv [flat_map].
    rewrite app_nil_r, <- E, string_of_list_ascii_of_string. reflexivity.
  - intros Hn. unfold matchGlobal, codes, pieces.
    rewrite scan_plain by exact Hn.
    induction (list_ascii_of_string s); [reflexivity|].
    simpl. apply IHl. intros Hin. apply Hn. now right.
Qed.

End EmojiCodeFacts.

(* ================================================================== *)
(** * A document without an order *)

Section DefaultOrder.
Import JS.
Variable EMOJI_CHAR_REGEX_GLOBAL : string -> bool.
Let em := EMOJI_CHAR_REGEX_GLOBAL.

Lemma missingKeys_nil ks : missingKeys [] ks = ks.
Proof.
  unfold missingKeys, includes.
  induction ks as [|k rest IH]; simpl; [reflexivity|]. now f_equal.
Qed.

(** X16.  When a document supplies no order, none at all or an empty
    one, the [order] of the configuration is the keys of [types] as
    [types] enumerates them, and a record whose [type] is its key has
    its position in [types] as index. *)
Theorem order_defaults_to_types raw this :
  suppliedOrder raw = [] ->
  constructor em raw = Ok this ->
  Configuration.order this = keys (Configuration.types this)
  /\ (forall i key t,
         nth_error (Configuration.types this) i = Some (key, t) ->
         IndexedType.type t = key ->
         IndexedType.index t = Z.of_nat i).
Proof.
  intros Hs H.
  pose proof (constructor_order _ _ _ H) as (Hnd & Ho & _).
  cbv zeta in Ho, Hnd. rewrite Hs, missingKeys_nil in Ho. simpl in Ho.
  split; [exact Ho|]. intros i key t Hn Ht.
  apply constructor_parts in H as (value & _ & _ & _ & Hty & _).
  destruct (Hty key t (nth_error_In _ _ Hn)) as [_ Hi].
  rewrite Hi, Ht, Ho. apply indexOf_nth; [exact Hnd|].
  unfold keys. now rewrite nth_error_map, Hn.
Qed.

End DefaultOrder.

(* ================================================================== *)
(** * More instances *)

Section MoreInstances.
Import JS.

Example test_EMOJI_CODE_REGEX :
  EMOJI_CODE_REGEX ":unicorn:" = true /\ EMOJI_CODE_REGEX "🦄" = false.
Proof. split; reflexivity. Qed.

Example test_EMOJI_CODE_REGEX_GLOBAL :
  EmojiCodes.matchGlobal "Hello :unicorn: :sparkles:"
  = Some [":unicorn:"; ":sparkles:"]
  /\ EmojiCodes.codes ":a:b:" = [":a:"]
  /\ EmojiCodes.codes "::a::" = [":a:"]
  /\ EmojiCodes.codes ":a b: :c" = [].
Proof. repeat split; reflexivity. Qed.

Lemma TextSchema_idempotent_witness :
  TextSchema (Own (JStr " feat ")) = Some "feat"
  /\ TextSchema (Own (JStr "feat")) = Some "feat"
  /\ TextSchema (Own (JStr "  ")) = None
  /\ TextSchema (Own (JNum 1)) = None.
Proof.
  assert (H : TextSchema (Own (JStr " feat ")) = Some "feat") by reflexivity.
  split; [exact H|].
  split; [exact (proj2 (proj1 TextSchema_idempotent _ _ H))|].
  split; [apply (proj1 (proj2 TextSchema_idempotent)); reflexivity|].
  apply (proj2 (proj2 TextSchema_idempotent)). discriminate.
Defined.

Lemma constructed :
  constructor sampleEmoji (JObj Sample.defaults) = Ok Sample.configuration.
Proof. vm_compute. reflexivity. Defined.

Lemma records_are_validated_witness :
  constructor sampleEmoji (JObj Sample.defaults) = Ok Sample.configuration
  /\ (forall k a,
         In (k, a) (Configuration.aliases Sample.configuration) ->
         validText k /\ validText (CommitAlias.type a)
         /\ validText (CommitAlias.name a)
         /\ validText (CommitAlias.description a)
         /\ validEmoji sampleEmoji (CommitAlias.emoji a)).
Proof.
  split; [exact constructed|].
  exact (proj2 (records_are_validated sampleEmoji _ _ constructed)).
Defined.

Lemma fallback_names_a_type_witness :
  constructor sampleEmoji (JObj Sample.defaults) = Ok Sample.configuration
  /\ inherited (Configuration.fallback Sample.configuration) = false
  /\ exists t,
       getOwn (Configuration.fallback Sample.configuration)
              (Configuration.types Sample.configuration) = Some t
       /\ findTypeByName Sample.configuration
            (Configuration.fallback Sample.configuration) = Some (Own t).
Proof.
  split; [exact constructed|]. split; [reflexivity|].
  exact (proj2 (proj2 (fallback_names_a_type sampleEmoji _ _ constructed))
           eq_refl).
Defined.

Lemma index_bounds_witness :
  constructor sampleEmoji (JObj Sample.defaults) = Ok Sample.configuration
  /\ exists t,
       getOwn "feat" (Configuration.types Sample.configuration) = Some t
       /\ (-1 <= IndexedType.index t
           < Z.of_nat (List.length (Configuration.order Sample.configuration)))%Z.
Proof.
  split; [exact constructed|]. eexists. split; [reflexivity|].
  exact (proj1 (index_bounds sampleEmoji _ _ "feat" _ constructed eq_refl)).
Defined.

Lemma scopes_are_validated_witness :
  constructor sampleEmoji (JObj Sample.defaults) = Ok Sample.configuration
  /\ getOwn "feat" (Configuration.scopes Sample.configuration) = Some ["api"]
  /\ Forall validText ["api"].
Proof.
  split; [exact constructed|]. split; [reflexivity|].
  exact (scopes_are_validated sampleEmoji _ _ "feat" _ constructed eq_refl).
Defined.

Lemma required_properties_witness :
  constructor sampleEmoji (JObj Sample.defaults) = Ok Sample.configuration
  /\ (exists doc types aliases fallback scopes,
         JObj Sample.defaults = JObj doc
         /\ getOwn "types" doc = Some (JObj types)
         /\ getOwn "aliases" doc = Some (JObj aliases)
         /\ getOwn "fallback" doc = Some (JStr fallback)
         /\ getOwn "scopes" doc = Some (JObj scopes)
         /\ (getOwn "order" doc = None
             \/ exists ss, getOwn "order" doc = Some (JArr (map JStr ss)))).
Proof.
  split; [exact constructed|].
  exact (required_properties sampleEmoji _ _ constructed).
Defined.

Lemma unknown_properties_are_ignored_witness :
  sameProperties Sample.defaults Layers.versioned
  /\ fromFile sampleEmoji (JObj Sample.defaults)
     = fromFile sampleEmoji (JObj Layers.versioned).
Proof.
  assert (H : sameProperties Sample.defaults Layers.versioned).
  { intros k Hk. unfold schemaProperties in Hk. simpl in Hk.
    destruct Hk as [<-|[<-|[<-|[<-|[<-|[]]]]]]; reflexivity. }
  split; [exact H|].
  exact (unknown_properties_are_ignored sampleEmoji _ _ H).
Defined.

Lemma NoDup_defaults : NoDup (keys Sample.defaults).
Proof. simpl. repeat constructor; simpl; intuition discriminate. Defined.

Lemma custom_without_properties_witness :
  NoDup (keys Sample.defaults) /\ NoDup (keys Layers.unrelated)
  /\ (forall k, In k schemaProperties -> getOwn k Layers.unrelated = None)
  /\ fromFiles sampleEmoji Sample.defaults Layers.unrelated
     = fromFile sampleEmoji (JObj Sample.defaults).
Proof.
  assert (Hc : NoDup (keys Layers.unrelated)).
  { simpl. repeat constructor; simpl; intuition discriminate. }
  assert (Hn : forall k, In k schemaProperties ->
                         getOwn k Layers.unrelated = None).
  { intros k Hk. unfold schemaProperties in Hk. simpl in Hk.
    destruct Hk as [<-|[<-|[<-|[<-|[<-|[]]]]]]; reflexivity. }
  split; [exact NoDup_defaults|]. split; [exact Hc|]. split; [exact Hn|].
  exact (custom_without_properties sampleEmoji _ _ NoDup_defaults Hc Hn).
Defined.

Lemma defaults_order_is_kept_witness :
  NoDup (keys Sample.defaults) /\ NoDup (keys Sample.custom)
  /\ getOwn "order" Sample.custom = None
  /\ fromFiles sampleEmoji Sample.defaults Sample.custom = Ok Sample.layered
  /\ Configuration.order Sample.layered
     = suppliedOrder (JObj Sample.defaults)
       ++ missingKeys (suppliedOrder (JObj Sample.defaults))
            (keys (Configuration.types Sample.layered)).
Proof.
  assert (Hc : NoDup (keys Sample.custom)).
  { simpl. repeat constructor; simpl; intuition discriminate. }
  assert (H : fromFiles sampleEmoji Sample.defaults Sample.custom
              = Ok Sample.layered) by (vm_compute; reflexivity).
  split; [exact NoDup_defaults|]. split; [exact Hc|]. split; [reflexivity|].
  split; [exact H|].
  exact (defaults_order_is_kept sampleEmoji _ _ _ NoDup_defaults Hc eq_refl H).
Defined.

Lemma custom_fallback_wins_witness :
  NoDup (keys Sample.defaults) /\ NoDup (keys Layers.customFallback)
  /\ getOwn "fallback" Layers.customFallback = Some (JStr " feat ")
  /\ fromFiles sampleEmoji Sample.defaults Layers.customFallback
     = Ok Layers.fallbackConfiguration
  /\ exists s,
       JStr " feat " = JStr s
       /\ Configuration.fallback Layers.fallbackConfiguration = Text.trim s.
Proof.
  assert (Hc : NoDup (keys Layers.customFallback)).
  { simpl. repeat constructor; simpl; intuition discriminate. }
  assert (H : fromFiles sampleEmoji Sample.defaults Layers.customFallback
              = Ok Layers.fallbackConfiguration) by (vm_compute; reflexivity).
  split; [exact NoDup_defaults|]. split; [exact Hc|]. split; [reflexivity|].
  split; [exact H|].
  exact (custom_fallback_wins sampleEmoji _ _ _ _ NoDup_defaults Hc eq_refl H).
Defined.

Lemma merged_types_have_all_keys_witness :
  fromFiles sampleEmoji Sample.defaults Layers.customTypes
  = Ok Layers.typesConfiguration
  /\ In (Text.trim "docs") (keys (Configuration.types Layers.typesConfiguration))
  /\ In (Text.trim "feat") (keys (Configuration.types Layers.typesConfiguration)).
Proof.
  assert (Hc : NoDup (keys Layers.customTypes)).
  { simpl. repeat constructor; simpl; intuition discriminate. }
  assert (Ht : NoDup (keys Sample.types)).
  { simpl. repeat constructor; simpl; intuition discriminate. }
  assert (Hu : NoDup (keys [("docs", Sample.commitType "docs")])).
  { simpl. repeat constructor; simpl; intuition discriminate. }
  assert (H : fromFiles sampleEmoji Sample.defaults Layers.customTypes
              = Ok Layers.typesConfiguration) by (vm_compute; reflexivity).
  split; [exact H|]. split.
  - apply (merged_types_have_all_keys sampleEmoji _ _ _ _ _ "docs"
             NoDup_defaults Hc Ht Hu eq_refl eq_refl H);
      [right; now left | discriminate].
  - apply (merged_types_have_all_keys sampleEmoji _ _ _ _ _ "feat"
             NoDup_defaults Hc Ht Hu eq_refl eq_refl H);
      [left; now left | discriminate].
Defined.

Lemma custom_order_gives_indices_witness :
  getOwn "order" Sample.customOrder = Some (JArr (map JStr [" feat"]))
  /\ NoDup (map Text.trim [" feat"])
  /\ fromFiles sampleEmoji Sample.defaults Sample.customOrder
     = Ok Sample.layeredOrder
  /\ exists t,
       getOwn (Text.trim " feat") (Configuration.types Sample.layeredOrder)
       = Some t
       /\ (IndexedType.type t = Text.trim " feat" ->
           IndexedType.index t = Z.of_nat 0).
Proof.
  assert (Hn : NoDup (map Text.trim [" feat"])).
  { vm_compute. constructor; [intros []|constructor]. }
  assert (H : fromFiles sampleEmoji Sample.defaults Sample.customOrder
              = Ok Sample.layeredOrder) by (vm_compute; reflexivity).
  split; [reflexivity|]. split; [exact Hn|]. split; [exact H|].
  exact (custom_order_gives_indices sampleEmoji Sample.defaults
           Sample.customOrder [" feat"] _ 0 " feat" eq_refl Hn H eq_refl).
Defined.

Lemma emoji_scans_return_first_witness :
  constructor sampleEmoji (JObj Sample.defaults) = Ok Sample.configuration
  /\ match findTypeByEmojiCode Sample.configuration ":sparkles:" with
     | Some t =>
         exists before key after,
           Configuration.types Sample.configuration
           = before ++ (key, t) :: after
           /\ EmojiObject.code (IndexedType.emoji t) = ":sparkles:"
           /\ (forall k' t', In (k', t') before ->
                 EmojiObject.code (IndexedType.emoji t') <> ":sparkles:")
           /\ findTypeByName Sample.configuration key = Some (Own t)
     | None =>
         forall k t, In (k, t) (Configuration.types Sample.configuration) ->
                     EmojiObject.code (IndexedType.emoji t) <> ":sparkles:"
     end.
Proof.
  split; [exact constructed|].
  exact (proj1 (emoji_scans_return_first sampleEmoji _ _ ":sparkles:"
                  constructed)).
Defined.

Lemma alias_resolves_through_type_witness :
  exists a t,
    getOwn "breaking" (Configuration.aliases Sample.configuration) = Some a
    /\ getOwn (CommitAlias.type a) (Configuration.types Sample.configuration)
       = Some t
    /\ findTypeByAliasName Sample.configuration "breaking" = Some (Own t).
Proof.
  eexists. eexists. split; [reflexivity|]. split; [reflexivity|].
  exact (proj1 (proj2 (alias_resolves_through_type Sample.configuration
                         "breaking")) _ eq_refl).
Defined.

Lemma global_codes_are_codes_witness :
  EMOJI_CODE_REGEX ":fire:" = true
  /\ EmojiCodes.matchGlobal ":fire:" = Some [":fire:"]
  /\ EmojiCodes.matchGlobal "fire" = None.
Proof.
  split; [reflexivity|]. split.
  - exact (proj1 (proj2 (global_codes_are_codes ":fire:")) eq_refl).
  - apply (proj2 (proj2 (global_codes_are_codes "fire"))).
    simpl. intuition discriminate.
Defined.

Lemma order_defaults_to_types_witness :
  suppliedOrder (JObj Sample.aliasScopes) = []
  /\ constructor sampleEmoji (JObj Sample.aliasScopes)
     = Ok Sample.aliasScopesConfiguration
  /\ Configuration.order Sample.aliasScopesConfiguration
     = keys (Configuration.types Sample.aliasScopesConfiguration).
Proof.
  assert (H : constructor sampleEmoji (JObj Sample.aliasScopes)
              = Ok Sample.aliasScopesConfiguration) by (vm_compute; reflexivity).
  split; [reflexivity|]. split; [exact H|].
  exact (proj1 (order_defaults_to_types sampleEmoji (JObj Sample.aliasScopes)
                  _ eq_refl H)).
Defined.

End MoreInstances.

(* ================================================================== *)
(** * The order of the defaults, and the length of the order *)

Section OrderFacts.
Import JS DeepMerge.
Variable EMOJI_CHAR_REGEX_GLOBAL : string -> bool.
Let em := EMOJI_CHAR_REGEX_GLOBAL.

(** X17.  When the custom document has an [order], the [order] of the
    defaults has no part in a layered load: two defaults documents that
    differ in their [order] alone give the same result. *)
Theorem defaults_order_is_irrelevant rawDefaults rawDefaults' rawCustom j :
  NoDup (keys rawDefaults) -> NoDup (keys rawDefaults') ->
  NoDup (keys rawCustom) ->
  getOwn "order" rawCustom = Some j ->
  (forall k, k <> "order" -> getOwn k rawDefaults = getOwn k rawDefaults') ->
  fromFiles em rawDefaults rawCustom = fromFiles em rawDefaults' rawCustom.
Proof.
  intros Hd Hd' Hc Hj Hsame. unfold fromFiles. apply constructor_ext.
  intros k Hk.
  destruct (String.eqb_spec k "order") as [->|Hne].
  - now rewrite !(merged_order _ _ _ Hj).
  - assert (Hp : k <> "__proto__").
    { unfold schemaProperties in Hk. simpl in Hk.
      intuition (subst; discriminate). }
    rewrite !merged_lookup by exact Hne. unfold deepMerge.
    rewrite !deepMergeInternal_lookup by assumption.
    now rewrite (Hsame k Hne).
Qed.

(** X18.  The [order] of a constructed configuration has at least as
    many entries as [types] has keys, and exactly as many when, and only
    when, no entry is repeated. *)
Theorem order_length raw this :
  constructor em raw = Ok this ->
  (List.length (Configuration.types this)
   <= List.length (Configuration.order this))%nat
  /\ (List.length (Configuration.order this)
      = List.length (Configuration.types this)
      <-> NoDup (Configuration.order this)).
Proof.
  intros H. apply constructor_order in H as (Hnd & Ho & HF).
  cbv zeta in Hnd, Ho. rewrite Forall_forall in HF.
  set (ks := keys (Configuration.types this)) in *.
  assert (Hlen : List.length (Configuration.types this) = List.length ks)
    by (symmetry; apply length_map).
  assert (Hincl : incl ks (Configuration.order this)).
  { intros k Hk. rewrite Ho. now apply order_covers. }
  rewrite Hlen. split; [now apply NoDup_incl_length|]. split.
  - intros E. apply NoDup_incl_NoDup with (l := ks);
      [exact Hnd|lia|exact Hincl].
  - intros Hn. apply Permutation_length, NoDup_Permutation;
      [exact Hn|exact Hnd|].
    intros k. split; [apply HF|apply Hincl].
Qed.

End OrderFacts.

Section OrderInstances.
Import JS.

Lemma defaults_order_is_irrelevant_witness :
  getOwn "order" Sample.customOrder = Some (JArr [JStr " feat"])
  /\ (forall k, k <> "order" ->
                getOwn k Sample.defaults = getOwn k Layers.reordered)
  /\ fromFiles sampleEmoji Sample.defaults Sample.customOrder
     = fromFiles sampleEmoji Layers.reordered Sample.customOrder.
Proof.
  assert (Hs : forall k, k <> "order" ->
                 getOwn k Sample.defaults = getOwn k Layers.reordered).
  { intros k Hk.
    unfold Sample.defaults, Layers.reordered, Sample.document.
    cbn [getOwn].
    destruct (String.eqb "types" k); [reflexivity|].
    destruct (String.eqb "aliases" k); [reflexivity|].
    destruct (String.eqb "fallback" k); [reflexivity|].
    destruct (String.eqb "scopes" k); [reflexivity|].
    destruct (String.eqb_spec "order" k); [congruence|reflexivity]. }
  split; [reflexivity|]. split; [exact Hs|].
  apply (defaults_order_is_irrelevant sampleEmoji Sample.defaults
           Layers.reordered Sample.customOrder (JArr [JStr " feat"])).
  - exact NoDup_defaults.
  - simpl. repeat constructor; simpl; intuition discriminate.
  - simpl. repeat constructor; simpl; intuition discriminate.
  - reflexivity.
  - exact Hs.
Defined.

Lemma order_length_witness :
  constructor sampleEmoji (JObj Sample.repeated)
  = Ok Sample.repeatedConfiguration
  /\ (List.length (Configuration.types Sample.repeatedConfiguration)
      <= List.length (Configuration.order Sample.repeatedConfiguration))%nat.
Proof.
  assert (H : constructor sampleEmoji (JObj Sample.repeated)
              = Ok Sample.repeatedConfiguration) by (vm_compute; reflexivity).
  split; [exact H|]. exact (proj1 (order_length sampleEmoji _ _ H)).
Defined.

End OrderInstances.
